(** * mdview (glow.js): a shallow embedding and its verified properties

    The development follows the second (current) revision of [glow.js]:
    the renderer ([render]), the viewer hand-off ([showWithLess]), the
    document store ([findMarkdownFiles]), the search ([searchInFiles]) and
    the interactive selector ([showFileSelector], [inputHandler]).

    JavaScript strings are sequences of UTF-16 code units.  They are
    modelled here by [string], one [ascii] per code unit, which covers the
    code units below 256 (Basic Latin and Latin-1). *)

From Stdlib Require Import ZArith Ascii String List Lia Bool DecimalString.
From stdpp Require Import gmap strings list sorting.

Local Open Scope Z_scope.

(** String concatenation reduces on a constructor, like the other string
    functions below. *)
#[local] Arguments String.append !s1 s2 : simpl nomatch.
(** Tests on code units are decided by computation, not unfolded. *)
#[local] Arguments Ascii.eqb : simpl never.

(** ** JavaScript string primitives *)

Module JsString.

Definition LF : ascii := "010"%char.
Definition CR : ascii := "013"%char.
Definition ESC : ascii := "027"%char.
Definition STAR : ascii := "*"%char.
Definition BACKTICK : ascii := "`"%char.

(** ['\n'] as a one-unit string. *)
Definition nl : string := String LF "".

(** [s.includes(c)] for a single code unit [c]. *)
Fixpoint has_char (c : ascii) (s : string) : bool :=
  match s with
  | EmptyString => false
  | String x rest => Ascii.eqb x c || has_char c rest
  end.

(** [s.slice(n)] for [0 <= n]. *)
Fixpoint str_drop (n : nat) (s : string) : string :=
  match n, s with
  | O, _ => s
  | S _, EmptyString => EmptyString
  | S k, String _ rest => str_drop k rest
  end.

(** [s.substring(0, n)]. *)
Fixpoint str_take (n : nat) (s : string) : string :=
  match n, s with
  | O, _ => EmptyString
  | S _, EmptyString => EmptyString
  | S k, String x rest => String x (str_take k rest)
  end.

(** [s.startsWith(p)]. *)
Fixpoint startsWith (p s : string) : bool :=
  match p, s with
  | EmptyString, _ => true
  | String _ _, EmptyString => false
  | String a p', String b s' => Ascii.eqb a b && startsWith p' s'
  end.

(** [s.endsWith(p)]: the last [p.length] units of [s] are [p]. *)
Definition endsWith (p s : string) : bool :=
  (String.length p <=? String.length s)%nat &&
  String.eqb (str_drop (String.length s - String.length p) s) p.

(** [s.includes(p)]: [p] starts at some position of [s]. *)
Fixpoint includes (p s : string) : bool :=
  startsWith p s ||
  match s with
  | EmptyString => false
  | String _ rest => includes p rest
  end.

(** Number of leading units equal to [c]. *)
Fixpoint count_prefix (c : ascii) (s : string) : nat :=
  match s with
  | EmptyString => O
  | String x rest => if Ascii.eqb x c then S (count_prefix c rest) else O
  end.

(** The longest prefix free of [c]: what a greedy [[^c]*] consumes. *)
Fixpoint take_not (c : ascii) (s : string) : string :=
  match s with
  | EmptyString => EmptyString
  | String x rest =>
      if Ascii.eqb x c then EmptyString else String x (take_not c rest)
  end.

(** [s.split('\n')]: never empty, [''.split('\n')] is [['']]. *)
Fixpoint split_lines (s : string) : list string :=
  match s with
  | EmptyString => [EmptyString]
  | String c rest =>
      if Ascii.eqb c LF then EmptyString :: split_lines rest
      else match split_lines rest with
           | l :: ls => String c l :: ls
           | [] => [String c EmptyString]
           end
  end.

(** [ls.join('\n')]. *)
Definition join_lines (ls : list string) : string := String.concat nl ls.

(** [s.replace(/re/g, ...)] for a pattern that, tried at the start of the
    remaining input, either fails or yields the replacement text and the
    (positive) length of the match.  The scan goes left to right; after a
    match it resumes at the end of the match, otherwise it copies one unit
    and moves on by one.  [skip] counts the units of the current match
    still to be passed over. *)
Fixpoint replace_from (m : string → option (string * nat))
    (skip : nat) (s : string) : string :=
  match s with
  | EmptyString => EmptyString
  | String c rest =>
      match skip with
      | S k => replace_from m k rest
      | O =>
          match m s with
          | Some (repl, len) => repl +:+ replace_from m (Nat.pred len) rest
          | None => String c (replace_from m O rest)
          end
      end
  end.

Definition replace_global (m : string → option (string * nat)) (s : string)
  : string := replace_from m O s.

(** [/\n{3,}/] at the start of [s]: the greedy quantifier takes the whole
    run of line feeds; the match succeeds when the run has three or more. *)
Definition match_newlines (s : string) : option (string * nat) :=
  let k := count_prefix LF s in
  if (3 <=? k)%nat then Some (nl +:+ nl, k) else None.

(** [/d([^c]+)d/] at the start of [s], for a delimiter [d] made of the
    unit [c] only (["**"], ["*"], ["`"]).  [[^c]+] is greedy and takes the
    longest run [t] free of [c]; giving back units cannot help, because the
    unit after a shorter run is not [c].  So the match succeeds exactly
    when [t] is non-empty and followed by [d]; the replacement is
    [style t], the callback applied to the captured group. *)
Definition match_span (d : string) (c : ascii) (style : string → string)
    (s : string) : option (string * nat) :=
  if startsWith d s then
    let body := str_drop (String.length d) s in
    let t := take_not c body in
    match t with
    | EmptyString => None
    | String _ _ =>
        if startsWith d (str_drop (String.length t) body)
        then Some (style t,
                   (String.length d + String.length t + String.length d)%nat)
        else None
    end
  else None.

End JsString.

(** ** The [chalk] styling library, as the program uses it

    [chalk] is a dependency of the program.  The definitions below follow
    [applyStyle] and its helpers in the library's source, for the styles
    the second pass of [render] and the header of [showWithLess] use.
    Colours given by [hex] and [bgHex] are written with the codes of
    level 3 (16 million colours), the only level above 0 the program runs
    at. *)

Module Chalk.
Import JsString.

(** A style builder: the escape codes that open and close it, innermost
    style first.  [chalk.inverse.black] is [[black; inverse]]. *)
Definition Styler := list (string * string).

Definition csi (params : string) : string := String ESC ("[" +:+ params +:+ "m").

Definition bold : Styler := [(csi "1", csi "22")].
Definition italic : Styler := [(csi "3", csi "23")].
Definition inverse_black : Styler := [(csi "30", csi "39"); (csi "7", csi "27")].
(** [chalk.bgHex('#E0E0E0').hex('#000000')] with 16 million colours. *)
Definition code_style : Styler :=
  [(csi "38;2;0;0;0", csi "39"); (csi "48;2;224;224;224", csi "49")].

(** [openAll]: outermost opening code first. *)
Fixpoint openAll (st : Styler) : string :=
  match st with
  | [] => EmptyString
  | (o, _) :: parent => openAll parent +:+ o
  end.

(** [closeAll]: innermost closing code first. *)
Fixpoint closeAll (st : Styler) : string :=
  match st with
  | [] => EmptyString
  | (_, c) :: parent => c +:+ closeAll parent
  end.

(** [stringReplaceAll(string, substring, replacer)] of chalk's [util.js]:
    every occurrence of [substring], found left to right without overlap,
    is kept and followed by [replacer]. *)
Definition stringReplaceAll (s sub by_ : string) : string :=
  match sub with
  | EmptyString => s
  | String _ _ =>
      replace_global
        (fun r => if startsWith sub r
                  then Some (sub +:+ by_, String.length sub) else None) s
  end.

(** [stringEncaseCRLFWithFirstIndex]: every line break (["\n"], or
    ["\r\n"] when a carriage return precedes the line feed) is preceded by
    [prefix] and followed by [postfix]. *)
Fixpoint encaseCRLF (prefix postfix : string) (s : string) : string :=
  match s with
  | EmptyString => EmptyString
  | String c rest =>
      if Ascii.eqb c LF then
        prefix +:+ String LF (postfix +:+ encaseCRLF prefix postfix rest)
      else
        match rest with
        | String c' rest' =>
            if Ascii.eqb c CR && Ascii.eqb c' LF then
              prefix +:+ String CR (String LF
                (postfix +:+ encaseCRLF prefix postfix rest'))
            else String c (encaseCRLF prefix postfix rest)
        | EmptyString => String c EmptyString
        end
  end.

(** [applyStyle]: at level 0, or on the empty string, the text is returned
    as it is.  Otherwise closing codes already present in the text are
    followed by a re-opening code (only when the text holds an escape
    unit), line breaks are encased, and the result is wrapped in the
    opening and closing codes. *)
Definition applyStyle (level : nat) (st : Styler) (s : string) : string :=
  match level, s with
  | O, _ => s
  | _, EmptyString => s
  | S _, String _ _ =>
      let s1 :=
        if has_char ESC s
        then fold_left (fun acc oc => stringReplaceAll acc (snd oc) (fst oc)) st s
        else s in
      let s2 :=
        if has_char LF s1 then encaseCRLF (closeAll st) (openAll st) s1 else s1 in
      openAll st +:+ s2 +:+ closeAll st
  end.

End Chalk.

(** ** The host: what the program takes from Node and its dependencies *)

(** Environment variables of the process. *)
Abbreviation Env := (gmap string string).

Class Host := {
  (** the colour level [chalk] detects from the environment when loaded *)
  supports_color : Env → nat;
  (** [marked.parse] with the [markedTerminal] renderer configured at the
      head of [glow.js], whose styles are [chalk] builders read at the
      given colour level.  The libraries are free to consult the
      environment of the process themselves, so the conversion is given
      the environment as well; nothing is assumed about what it does
      with it. *)
  marked_parse : Env → nat → string → string;
  (** [path.join], [path.basename], [path.relative('.', _)], [os.tmpdir()] *)
  path_join : string → string → string;
  path_basename : string → string;
  path_relative : string → string;
  os_tmpdir : string
}.

(** ** The renderer *)

Module Render.
Import JsString.

(** [chalk.level = 3]: the assignment at load time replaces whatever level
    the library detected. *)
Definition chalk_level `{Host} (env : Env) : nat :=
  let detected := supports_color env in 3%nat.

(** The three textual passes and the margin of [render], applied to the
    text [marked.parse] returned. *)
Definition collapse_newlines (r : string) : string :=
  replace_global match_newlines r.

Definition bold_pass (level : nat) (r : string) : string :=
  replace_global (match_span "**" STAR (Chalk.applyStyle level Chalk.bold)) r.

Definition italic_pass (level : nat) (r : string) : string :=
  replace_global (match_span "*" STAR (Chalk.applyStyle level Chalk.italic)) r.

Definition code_pass (level : nat) (r : string) : string :=
  replace_global
    (match_span "`" BACKTICK (Chalk.applyStyle level Chalk.code_style)) r.

Definition pad_lines (r : string) : string :=
  join_lines (map (fun line => "  " +:+ line) (split_lines r)).

Definition render_post (level : nat) (r : string) : string :=
  let result := collapse_newlines r in
  let result := bold_pass level result in
  let result := italic_pass level result in
  let result := code_pass level result in
  pad_lines result.

Definition render `{Host} (env : Env) (content : string) : string :=
  let level := chalk_level env in
  render_post level (marked_parse env level content).

(** The text [showWithLess] writes to the transient file. *)
Definition artifact `{Host} (env : Env) (filename content : string) : string :=
  let header :=
    "  " +:+ Chalk.applyStyle (chalk_level env) Chalk.inverse_black
               (" " +:+ filename +:+ " ") +:+ nl +:+ nl in
  header +:+ render env content.

End Render.

(** A host for evaluating concrete scenarios: POSIX-style paths relative to
    the working directory, and an upstream conversion that converts nothing
    and adds no styling of its own. *)
Definition plain_host : Host := {|
  supports_color := fun env => match env !! "NO_COLOR" with Some _ => 0%nat | None => 3%nat end;
  marked_parse := fun _ _ s => s;
  path_join := fun d n => d +:+ "/" +:+ n;
  path_basename := fun p => p;
  path_relative := fun p => p;
  os_tmpdir := "/tmp"
|}.

(** ** The document store *)

Module Store.
Import JsString.

#[local] Set Warnings "-register-all".

(** What [fs.readdirSync(dir, { withFileTypes: true })] yields: the type
    of each entry (regular file, directory, anything else) and, for a
    directory, its own listing, [None] when reading that directory throws. *)
Inductive Dirent :=
| DFile (name : string)
| DDir (name : string) (listing : option (list Dirent))
| DOther (name : string).

(** A [for ... of] loop whose body may throw. *)
Definition for_of {A S : Type} (body : A → S → option S)
  : list A → S → option S :=
  fix go (xs : list A) (acc : S) : option S :=
    match xs with
    | [] => Some acc
    | x :: xs' =>
        match body x acc with
        | Some acc' => go xs' acc'
        | None => None
        end
    end.

(** [Array.prototype.sort()] without a comparator on an array of strings:
    ascending by code units.  The order is total and antisymmetric, so the
    sorted array is unique and the sorting algorithm does not matter. *)
Definition sort (l : list string) : list string := merge_sort String.le l.

(** The pruning test of the first branch. *)
Definition descends (name : string) : bool :=
  negb (startsWith "." name) && negb (String.eqb name "node_modules").

Definition is_markdown (name : string) : bool :=
  endsWith ".md" name || endsWith ".markdown" name.

(** The loop body of [findMarkdownFiles(dir)] on one entry; the recursive
    call is inlined in the directory branch. *)
Fixpoint visit `{Host} (dir : string) (entry : Dirent) (results : list string)
  : option (list string) :=
  match entry with
  | DDir name listing =>
      let fullPath := path_join dir name in
      if descends name then
        match listing with
        | None => None
        | Some entries =>
            match for_of (visit fullPath) entries [] with
            | Some sub => Some (results ++ sort sub)
            | None => None
            end
        end
      else Some results
  | DFile name =>
      let fullPath := path_join dir name in
      if is_markdown name then Some (results ++ [fullPath]) else Some results
  | DOther _ => Some results
  end.

(** [findMarkdownFiles(dir)], given what [readdirSync(dir)] does. *)
Definition findMarkdownFiles `{Host} (dir : string)
    (listing : option (list Dirent)) : option (list string) :=
  match listing with
  | None => None
  | Some entries =>
      match for_of (visit dir) entries [] with
      | Some results => Some (sort results)
      | None => None
      end
  end.

End Store.

(** ** The search *)

Module Search.
Import JsString.

Record SearchResult := mkResult {
  file : string;
  basename : string;
  relPath : string;
  line : Z;
  preview : string
}.

(** [toLowerCase] on one code unit below 256: A-Z and the Latin-1 capitals
    (all of 192..222 but the multiplication sign 215) move up by 32.
    Strings are taken with code units below 256 throughout; there
    [toLowerCase] maps unit by unit.  On other text it does not (a capital
    sigma is mapped by its place in the word), so nothing that holds by
    the unit-wise shape alone is stated beyond ASCII text. *)
Definition lower_unit (c : ascii) : ascii :=
  let n := N_of_ascii c in
  if ((65 <=? n) && (n <=? 90) ||
      (192 <=? n) && (n <=? 222) && negb (n =? 215))%N
  then ascii_of_N (n + 32) else c.

Fixpoint toLowerCase (s : string) : string :=
  match s with
  | EmptyString => EmptyString
  | String c rest => String (lower_unit c) (toLowerCase rest)
  end.

(** White space and line terminators below 256. *)
Definition is_space (c : ascii) : bool :=
  let n := N_of_ascii c in
  ((9 <=? n) && (n <=? 13) || (n =? 32) || (n =? 160))%N.

Fixpoint trimStart (s : string) : string :=
  match s with
  | EmptyString => EmptyString
  | String c rest => if is_space c then trimStart rest else s
  end.

Fixpoint trimEnd (s : string) : string :=
  match s with
  | EmptyString => EmptyString
  | String c rest =>
      match trimEnd rest with
      | EmptyString => if is_space c then EmptyString else String c EmptyString
      | r => String c r
      end
  end.

Definition trim (s : string) : string := trimEnd (trimStart s).

(** The inner loop: the first line, counted from [i], that contains the
    lower-cased query. *)
Fixpoint first_match (lowerQuery : string) (lines : list string) (i : Z)
  : option (Z * string) :=
  match lines with
  | [] => None
  | l :: rest =>
      if includes lowerQuery (toLowerCase l) then Some (i, l)
      else first_match lowerQuery rest (i + 1)
  end.

(** [searchInFiles(files, query)]; [store] gives the content of every
    file [readFileSync] can read.  An unreadable file throws inside the
    [try] and is skipped. *)
Definition searchInFiles `{Host} (store : gmap string string)
    (files : list string) (query : string) : list SearchResult :=
  let lowerQuery := toLowerCase query in
  fold_left (fun results file =>
    match store !! file with
    | None => results
    | Some content =>
        let lines := split_lines content in
        match first_match lowerQuery lines 0 with
        | Some (i, l) =>
            results ++ [ {| file := file;
                            basename := path_basename file;
                            relPath := path_relative file;
                            line := i + 1;
                            preview := str_take 80 (trim l) |} ]
        | None => results
        end
    end) files [].

End Search.

(** ** The process: file system, terminal input and effects *)

Module Process.
Import JsString.

(** The part of the outside world the program touches.  [fs_files] holds
    the content of every regular file the process can read; [fs_locked]
    holds the paths the system refuses to create, overwrite or remove;
    [clock] is what [Date.now()] returns. *)
Record World := mkWorld {
  fs_files : gmap string string;
  fs_locked : gset string;
  clock : Z;
  environ : Env
}.

(** [process.stdin] as the selector drives it, the stream being a terminal:
    only a terminal stream has [setRawMode].  On any other stream the
    first call, in [startSelector], throws before a listener is
    registered, so that the key handler never runs there; that start is
    [Browser.showFileSelector_piped]. *)
Record Stdin := mkStdin {
  rawMode : bool;
  paused : bool;
  listening : bool      (* a ['data'] listener is registered *)
}.

(** The variables [showFileSelector] closes over. *)
Record Selector := mkSelector {
  files : list string;
  selected : Z;
  searchMode : bool;
  searchQuery : string;
  searchResults : list Search.SearchResult
}.

(** Effects visible from outside, oldest first. *)
Inductive Action :=
| ClearScreen                                   (* ESC[2J ESC[H *)
| Repaint                                       (* the body of renderList *)
| WriteFile (path content : string)
| Spawn (command : string) (args : list string)
| Unlink (path : string).

(** The ['close'] callback [showWithLess] leaves behind: the transient
    file, and whether [onClose] was given (it is always [startSelector]). *)
Record Pending := mkPending {
  tmpFile : string;
  hasOnClose : bool
}.

Record Machine := mkMachine {
  sel : Selector;
  stdin : Stdin;
  world : World;
  pending : option Pending;
  trace : list Action
}.

(** A computation returns, throws, or ends the process. *)
Inductive Result (A : Type) :=
| Return (a : A) (m : Machine)
| Throw (m : Machine)
| Exit (code : Z) (m : Machine).
Arguments Return {A} a m.
Arguments Throw {A} m.
Arguments Exit {A} code m.

Definition M (A : Type) : Type := Machine → Result A.

Definition ret {A} (a : A) : M A := fun m => Return a m.
Definition bind {A B} (c : M A) (k : A → M B) : M B :=
  fun m =>
    match c m with
    | Return a m' => k a m'
    | Throw m' => Throw m'
    | Exit code m' => Exit code m'
    end.

#[global] Instance M_ret : MRet M := @ret.
#[global] Instance M_bind : MBind M := fun A B k c => bind c k.

Definition get {A} (f : Machine → A) : M A := fun m => Return (f m) m.
Definition throw {A} : M A := fun m => Throw m.
Definition process_exit {A} (code : Z) : M A := fun m => Exit code m.
Definition emit (a : Action) : M unit :=
  fun m => Return tt (mkMachine (sel m) (stdin m) (world m) (pending m)
                                (trace m ++ [a])).
Definition set_sel (f : Selector → Selector) : M unit :=
  fun m => Return tt (mkMachine (f (sel m)) (stdin m) (world m) (pending m)
                                (trace m)).
Definition set_stdin (f : Stdin → Stdin) : M unit :=
  fun m => Return tt (mkMachine (sel m) (f (stdin m)) (world m) (pending m)
                                (trace m)).
Definition set_world (w : World) : M unit :=
  fun m => Return tt (mkMachine (sel m) (stdin m) w (pending m) (trace m)).
Definition set_pending (p : option Pending) : M unit :=
  fun m => Return tt (mkMachine (sel m) (stdin m) (world m) p (trace m)).

(** *** [fs] *)

Definition readFileSync (path : string) : M string :=
  w ← get world;
  match fs_files w !! path with
  | Some content => ret content
  | None => throw
  end.

Definition writeFileSync (path content : string) : M unit :=
  w ← get world;
  if decide (path ∈ fs_locked w) then throw
  else
    set_world (mkWorld (<[path := content]> (fs_files w)) (fs_locked w)
                       (clock w) (environ w)) ;;
    emit (WriteFile path content).

Definition unlinkSync (path : string) : M unit :=
  w ← get world;
  match fs_files w !! path with
  | Some _ =>
      if decide (path ∈ fs_locked w) then throw
      else
        set_world (mkWorld (delete path (fs_files w)) (fs_locked w)
                           (clock w) (environ w)) ;;
        emit (Unlink path)
  | None => throw
  end.

(** *** [process.stdin] and the selector's variables *)

(** [process.stdin.setRawMode(b)] on a terminal stream; a stream that is
    no terminal has no such method, see [Browser.showFileSelector_piped]. *)
Definition setRawMode (b : bool) : M unit :=
  set_stdin (fun i => mkStdin b (paused i) (listening i)).
Definition stdin_pause : M unit :=
  set_stdin (fun i => mkStdin (rawMode i) true (listening i)).
Definition stdin_resume : M unit :=
  set_stdin (fun i => mkStdin (rawMode i) false (listening i)).
Definition removeAllListeners : M unit :=
  set_stdin (fun i => mkStdin (rawMode i) (paused i) false).
Definition on_data : M unit :=
  set_stdin (fun i => mkStdin (rawMode i) (paused i) true).

Definition set_selected (z : Z) : M unit :=
  set_sel (fun s => mkSelector (files s) z (searchMode s) (searchQuery s)
                               (searchResults s)).
Definition set_searchMode (b : bool) : M unit :=
  set_sel (fun s => mkSelector (files s) (selected s) b (searchQuery s)
                               (searchResults s)).
Definition set_searchQuery (q : string) : M unit :=
  set_sel (fun s => mkSelector (files s) (selected s) (searchMode s) q
                               (searchResults s)).
Definition set_searchResults (r : list Search.SearchResult) : M unit :=
  set_sel (fun s => mkSelector (files s) (selected s) (searchMode s)
                               (searchQuery s) r).

(** [a[i]] for a number [i]: [undefined] out of range. *)
Definition index {A} (a : list A) (i : Z) : option A :=
  if i <? 0 then None else a !! Z.to_nat i.

(** The decimal text of an integer, as a template literal prints it. *)
Definition show (z : Z) : string := NilZero.string_of_int (Z.to_int z).

End Process.

(** ** The viewer hand-off *)

Module Viewer.
Import JsString Process.

(** The arguments given to [less], before the start line and the file. *)
Definition lessOptions : list string :=
  [ "-R"; "-i"; "-M";
    "-Ps%Pb\\%";
    "-Pm%Pb\\%";
    "-PM%Pb\\%  ↑/↓:scroll  PgUp/PgDn:page  q:quit" ].

(** [lessArgs] as passed to [spawn].  [startLine] is [undefined] when the
    caller passes three arguments; the test [startLine && startLine > 1]
    holds for a number that is not 0 and is greater than 1. *)
Definition lessArgs (startLine : option Z) (tmp : string) : list string :=
  lessOptions ++
  (match startLine with
   | Some n => if negb (n =? 0) && (1 <? n) then ["+" +:+ show n] else []
   | None => []
   end) ++ [tmp].

(** [showWithLess(content, filename, onClose, startLine)]: it returns
    once [less] is spawned; the ['close'] callback stays pending. *)
Definition showWithLess `{Host} (content filename : string)
    (onClose : bool) (startLine : option Z) : M unit :=
  w ← get world;
  let rendered := Render.artifact (environ w) filename content in
  let tmp := path_join os_tmpdir ("mdview-" +:+ show (clock w) +:+ ".txt") in
  writeFileSync tmp rendered ;;
  emit (Spawn "less" (lessArgs startLine tmp)) ;;
  set_pending (Some (mkPending tmp onClose)).

(** The ['close'] callback, [k] being [onClose] when there is one. *)
Definition on_less_close (p : Pending) (k : M unit) : M unit :=
  unlinkSync (tmpFile p) ;;
  if hasOnClose p then k else process_exit 0.

End Viewer.

(** ** The interactive selector *)

Module Browser.
Import JsString Process.

Definition key_ctrl_c : string := String "003" "".
Definition key_escape : string := String ESC "".
Definition key_delete : string := String "127" "".
Definition key_backspace : string := String "008" "".
Definition key_cr : string := String CR "".
Definition key_lf : string := String LF "".
Definition key_up : string := String ESC "[A".
Definition key_down : string := String ESC "[B".

Definition clear_screen : M unit := emit ClearScreen.

(** [renderList]: clears the screen and prints the list of the current
    mode.  What it prints is left out; it changes no variable. *)
Definition renderList : M unit := clear_screen ;; emit Repaint.

Definition startSelector : M unit :=
  set_searchMode false ;;
  set_searchQuery "" ;;
  set_searchResults [] ;;
  set_selected 0 ;;
  renderList ;;
  setRawMode true ;;
  stdin_resume ;;
  on_data.

Definition when (b : bool) (c : M unit) : M unit := if b then c else ret tt.

(** The search-mode part of [inputHandler]; every branch returns. *)
Definition search_keys `{Host} (key : string) : M unit :=
  if String.eqb key key_escape && (String.length key =? 1)%nat then
    set_searchMode false ;;
    set_searchQuery "" ;;
    set_searchResults [] ;;
    set_selected 0 ;;
    renderList
  else if String.eqb key key_delete || String.eqb key key_backspace then
    q ← get (fun m => searchQuery (sel m));
    let q' := str_take (String.length q - 1) q in
    set_searchQuery q' ;;
    (if (0 <? String.length q')%nat then
       fs ← get (fun m => files (sel m));
       w ← get world;
       set_searchResults (Search.searchInFiles (fs_files w) fs q')
     else set_searchResults []) ;;
    set_selected 0 ;;
    renderList
  else if String.eqb key key_cr || String.eqb key key_lf then
    results ← get (fun m => searchResults (sel m));
    when (0 <? length results)%nat (
      setRawMode false ;;
      stdin_pause ;;
      removeAllListeners ;;
      clear_screen ;;
      i ← get (fun m => selected (sel m));
      match index results i with
      | None => throw          (* [result.file] of [undefined] *)
      | Some result =>
          content ← readFileSync (Search.file result);
          Viewer.showWithLess content (Search.relPath result) true
                              (Some (Search.line result))
      end)
  else if String.eqb key key_up then
    results ← get (fun m => searchResults (sel m));
    i ← get (fun m => selected (sel m));
    when (0 <? length results)%nat
      (set_selected (if 0 <? i then i - 1 else Z.of_nat (length results) - 1)) ;;
    renderList
  else if String.eqb key key_down then
    results ← get (fun m => searchResults (sel m));
    i ← get (fun m => selected (sel m));
    when (0 <? length results)%nat
      (set_selected (if i <? Z.of_nat (length results) - 1 then i + 1 else 0)) ;;
    renderList
  else if (String.length key =? 1)%nat && String.leb " " key then
    q ← get (fun m => searchQuery (sel m));
    let q' := q +:+ key in
    set_searchQuery q' ;;
    fs ← get (fun m => files (sel m));
    w ← get world;
    set_searchResults (Search.searchInFiles (fs_files w) fs q') ;;
    set_selected 0 ;;
    renderList
  else ret tt.

(** The normal-mode part.  The tests for [q], [/] and Enter return; the
    tests for up and down follow one another. *)
Definition browse_keys `{Host} (key : string) : M unit :=
  when (String.eqb key "q") (clear_screen ;; process_exit 0) ;;
  if String.eqb key "/" then
    set_searchMode true ;;
    set_searchQuery "" ;;
    set_searchResults [] ;;
    set_selected 0 ;;
    renderList
  else if String.eqb key key_cr || String.eqb key key_lf then
    setRawMode false ;;
    stdin_pause ;;
    removeAllListeners ;;
    clear_screen ;;
    fs ← get (fun m => files (sel m));
    i ← get (fun m => selected (sel m));
    match index fs i with
    | None => throw            (* [readFileSync(undefined)] *)
    | Some f =>
        content ← readFileSync f;
        Viewer.showWithLess content (path_relative f) true None
    end
  else
    fs ← get (fun m => files (sel m));
    i ← get (fun m => selected (sel m));
    when (String.eqb key key_up || String.eqb key "k")
      (set_selected (if 0 <? i then i - 1 else Z.of_nat (length fs) - 1) ;;
       renderList) ;;
    i ← get (fun m => selected (sel m));
    when (String.eqb key key_down || String.eqb key "j")
      (set_selected (if i <? Z.of_nat (length fs) - 1 then i + 1 else 0) ;;
       renderList).

Definition inputHandler `{Host} (key : string) : M unit :=
  when (String.eqb key key_ctrl_c) (clear_screen ;; process_exit 0) ;;
  searching ← get (fun m => searchMode (sel m));
  if (searching : bool) then search_keys key else browse_keys key.

(** *** The event loop *)

Inductive Status :=
| Running
| Exited (code : Z)
| Crashed.                 (* an exception reached the event loop *)

Record Config := mkConfig {
  machine : Machine;
  status : Status
}.

Inductive Event :=
| Key (data : string)            (* a chunk read from the terminal *)
| LessClosed (code : Z)          (* the viewer process ended *)
| Outside (w : World).           (* other processes changed the world *)

Definition run (c : M unit) (m : Machine) : Config :=
  match c m with
  | Return _ m' => mkConfig m' Running
  | Throw m' => mkConfig m' Crashed
  | Exit code m' => mkConfig m' (Exited code)
  end.

(** One turn of the event loop.  A key reaches [inputHandler] when the
    listener is registered and the stream flows; the end of [less] runs
    the pending callback once. *)
Definition step `{Host} (cfg : Config) (e : Event) : Config :=
  match status cfg with
  | Running =>
      let m := machine cfg in
      match e with
      | Key data =>
          if listening (stdin m) && negb (paused (stdin m))
          then run (inputHandler data) m else cfg
      | LessClosed _ =>
          match pending m with
          | Some p =>
              run (set_pending None ;; Viewer.on_less_close p startSelector) m
          | None => cfg
          end
      | Outside w =>
          mkConfig (mkMachine (sel m) (stdin m) w (pending m) (trace m)) Running
      end
  | _ => cfg
  end.

Definition steps `{Host} (cfg : Config) (es : list Event) : Config :=
  fold_left step es cfg.

(** [showFileSelector(files)] up to the first event, standard input being
    a terminal. *)
Definition showFileSelector `{Host} (fs : list string) (w : World) : Config :=
  run startSelector
    (mkMachine (mkSelector fs 0 false "" []) (mkStdin false true false) w None []).

(** [showFileSelector(files)] when standard input is no terminal:
    [process.stdin.setRawMode] is not a function there, so [startSelector]
    throws a [TypeError] at that call, after the list was painted, and the
    exception leaves [showFileSelector]. *)
Definition showFileSelector_piped `{Host} (fs : list string) (w : World) : Config :=
  run (set_searchMode false ;;
       set_searchQuery "" ;;
       set_searchResults [] ;;
       set_selected 0 ;;
       renderList ;;
       throw)
    (mkMachine (mkSelector fs 0 false "" []) (mkStdin false true false) w None []).

(** [showWithLess(content, name)] from [main], for a single file or for
    standard input: no [onClose]. *)
Definition showSingle `{Host} (content name : string) (w : World) : Config :=
  run (Viewer.showWithLess content name false None)
    (mkMachine (mkSelector [] 0 false "" []) (mkStdin false true false) w None []).

End Browser.

(** ** The entry point *)

Module Main.
Import JsString Process Browser.

(** What [fs.existsSync] and [fs.statSync] tell about a path: nothing when
    it does not exist, otherwise whether it is a directory, with what
    [readdirSync] yields for it. *)
Inductive Kind :=
| KDir (listing : option (list Store.Dirent))
| KNotDir.

(** One run of the program: [process.argv.slice(2)], [process.stdin.isTTY],
    what standard input delivers until it ends, and the paths on disk. *)
Record Invocation := mkInvocation {
  args : list string;
  stdin_isTTY : bool;
  stdin_text : string;
  stat : string → option Kind
}.

(** What [main] prints itself. *)
Inductive Output :=
| Usage                      (* [showHelp()]: the usage text on stdout *)
| Stderr (text : string)     (* [console.error(text)] *)
| StderrError.               (* [console.error('Error:', e.message)] *)

(** How [main] ends: it returns with nothing left to wait for (the process
    then ends with code 0), it calls [process.exit], or it leaves the
    selector or the viewer running. *)
Inductive Outcome :=
| Ended (out : list Output)
| Quit (code : Z) (out : list Output)
| Started (cfg : Config).

Definition red : Chalk.Styler := [(Chalk.csi "31", Chalk.csi "39")].

(** [args.includes(flag)]. *)
Definition includes_arg (flag : string) (l : list string) : bool :=
  existsb (String.eqb flag) l.

(** [args[0] || '.']: the empty string is falsy. *)
Definition target_of (l : list string) : string :=
  match l with
  | a :: _ => if String.eqb a "" then "." else a
  | [] => "."
  end.

(** An exception that leaves [main] is caught by [main().catch]. *)
Definition caught (cfg : Config) : Outcome :=
  match status cfg with
  | Running => Started cfg
  | Crashed => Quit 1 [StderrError]
  | Exited code => Quit code []
  end.

Definition main `{Host} (inv : Invocation) (w : World) : Outcome :=
  if includes_arg "-h" (args inv) || includes_arg "--help" (args inv) then
    Ended [Usage]
  else if negb (stdin_isTTY inv) && (length (args inv) =? 0)%nat then
    let content := stdin_text inv in
    match Search.trim content with
    | EmptyString => Ended []
    | String _ _ => caught (showSingle content "stdin" w)
    end
  else
    let target := target_of (args inv) in
    match stat inv target with
    | None =>
        Quit 1 [Stderr (Chalk.applyStyle (Render.chalk_level (environ w)) red
                          ("  Error: Not found: " +:+ target))]
    | Some (KDir listing) =>
        match Store.findMarkdownFiles target listing with
        | None => Quit 1 [StderrError]
        | Some [] =>
            Quit 1 [Stderr (Chalk.applyStyle (Render.chalk_level (environ w)) red
                              ("  No markdown files found in " +:+ target))]
        | Some mdFiles =>
            caught (if stdin_isTTY inv then showFileSelector mdFiles w
                    else showFileSelector_piped mdFiles w)
        end
    | Some KNotDir =>
        match fs_files w !! target with
        | None => Quit 1 [StderrError]
        | Some content => caught (showSingle content (path_basename target) w)
        end
    end.

End Main.

(** ** Notions used to state the properties *)

Module Spec.
Import JsString.

(** [k] copies of the unit [c]. *)
Fixpoint rep (c : ascii) (k : nat) : string :=
  match k with
  | O => EmptyString
  | S k' => String c (rep c k')
  end.

Definition starts_with (c : ascii) (s : string) : bool :=
  match s with
  | EmptyString => false
  | String x _ => Ascii.eqb x c
  end.

Fixpoint ends_with (c : ascii) (s : string) : bool :=
  match s with
  | EmptyString => false
  | String x EmptyString => Ascii.eqb x c
  | String _ rest => ends_with c rest
  end.

(** Three line feeds in a row. *)
Definition nl3 : string := rep LF 3.

(** The longest run of consecutive empty lines among [ls]; [cur] is the
    length of the run that ends just before [ls]. *)
Fixpoint blank_run (cur best : nat) (ls : list string) : nat :=
  match ls with
  | [] => Nat.max cur best
  | EmptyString :: rest => blank_run (S cur) best rest
  | String _ _ :: rest => blank_run O (Nat.max cur best) rest
  end.

Definition max_blank_run (text : string) : nat :=
  blank_run O O (split_lines text).

(** A literal emphasis marker: an asterisk or a backtick. *)
Definition has_marker (s : string) : bool :=
  has_char STAR s || has_char BACKTICK s.

Inductive Marker := Bold | Italic | Code.

Definition delimiter (k : Marker) : string :=
  match k with Bold => "**" | Italic => "*" | Code => "`" end.

Definition styler (k : Marker) : Chalk.Styler :=
  match k with
  | Bold => Chalk.bold
  | Italic => Chalk.italic
  | Code => Chalk.code_style
  end.

(** A span, given by its marker and its content, and the text after it. *)
Record Segment := mkSegment {
  seg_kind : Marker;
  seg_body : string;
  seg_after : string
}.

(** The text that starts with [pre] and goes on with the segments, every
    span written between its delimiters. *)
Fixpoint doc_text (pre : string) (segs : list Segment) : string :=
  match segs with
  | [] => pre
  | g :: rest =>
      pre +:+ delimiter (seg_kind g) +:+ seg_body g +:+ delimiter (seg_kind g)
          +:+ doc_text (seg_after g) rest
  end.

(** Well-formed spans kept apart: contents and texts hold no marker, no
    content is empty, and the text between two spans is not empty. *)
Fixpoint segs_ok (segs : list Segment) : Prop :=
  match segs with
  | [] => True
  | g :: rest =>
      has_marker (seg_body g) = false ∧ seg_body g ≠ "" ∧
      has_marker (seg_after g) = false ∧ (rest = [] ∨ seg_after g ≠ "") ∧
      segs_ok rest
  end.

(** The same text with line feeds collapsed and every span replaced by its
    content in the style of its marker. *)
Fixpoint styled_text (level : nat) (pre : string) (segs : list Segment) : string :=
  match segs with
  | [] => Render.collapse_newlines pre
  | g :: rest =>
      Render.collapse_newlines pre
      +:+ Chalk.applyStyle level (styler (seg_kind g))
            (Render.collapse_newlines (seg_body g))
      +:+ styled_text level (seg_after g) rest
  end.

(** The text between the passes: after [j] of the three passes (bold,
    italic, code) the spans of the first [j] markers are styled, the
    others still written between their delimiters. *)
Definition processed (j : nat) (k : Marker) : bool :=
  match k with
  | Bold => (1 <=? j)%nat
  | Italic => (2 <=? j)%nat
  | Code => (3 <=? j)%nat
  end.

Definition shown (level j : nat) (g : Segment) : string :=
  if processed j (seg_kind g)
  then Chalk.applyStyle level (styler (seg_kind g)) (seg_body g)
  else delimiter (seg_kind g) +:+ seg_body g +:+ delimiter (seg_kind g).

Fixpoint stage_text (level j : nat) (pre : string) (segs : list Segment) : string :=
  match segs with
  | [] => pre
  | g :: rest => pre +:+ shown level j g +:+ stage_text level j (seg_after g) rest
  end.

Definition collapse_seg (g : Segment) : Segment :=
  mkSegment (seg_kind g) (Render.collapse_newlines (seg_body g))
            (Render.collapse_newlines (seg_after g)).

(** The pass of [render] for a marker. *)
Definition pass_of (level : nat) (k : Marker) (r : string) : string :=
  match k with
  | Bold => Render.bold_pass level r
  | Italic => Render.italic_pass level r
  | Code => Render.code_pass level r
  end.

(** The number of passes that run before the pass for a marker. *)
Definition pass_index (k : Marker) : nat :=
  match k with Bold => 0 | Italic => 1 | Code => 2 end.

(** [Listed dir entries p]: [p] is the full path of a file whose name
    ends in [.md] or [.markdown], reached from the listing [entries] of
    [dir] through directories whose names neither start with a dot nor
    are [node_modules]. *)
Inductive Listed `{Host} : string → list Store.Dirent → string → Prop :=
| Listed_file dir entries name :
    In (Store.DFile name) entries →
    endsWith ".md" name = true ∨ endsWith ".markdown" name = true →
    Listed dir entries (path_join dir name)
| Listed_dir dir entries name sub p :
    In (Store.DDir name (Some sub)) entries →
    startsWith "." name = false → name ≠ "node_modules" →
    Listed (path_join dir name) sub p →
    Listed dir entries p.

(** What the loop body adds to the results for the entry [e]. *)
Definition adds_listed `{Host} (e : Store.Dirent) : Prop :=
  ∀ dir results res,
    Store.visit dir e results = Some res →
    ∀ p, In p res ↔ In p results ∨ Listed dir [e] p.

(** Every directory the scan descends into can be read. *)
Fixpoint readable (e : Store.Dirent) : bool :=
  match e with
  | Store.DDir name listing =>
      if Store.descends name then
        match listing with
        | Some es => forallb readable es
        | None => false
        end
      else true
  | _ => true
  end.

(** The same tree with every pruned directory made unreadable, whatever
    it holds. *)
Fixpoint blind (e : Store.Dirent) : Store.Dirent :=
  match e with
  | Store.DDir name listing =>
      if Store.descends name
      then Store.DDir name (option_map (map blind) listing)
      else Store.DDir name None
  | other => other
  end.

(** What a readable file contributes to a search for the empty query:
    its first line, as line 1. *)
Definition first_line_result `{Host} (store : gmap string string)
    (file : string) : list Search.SearchResult :=
  match store !! file with
  | Some content =>
      [ Search.mkResult file (path_basename file) (path_relative file) 1
          (str_take 80 (Search.trim (hd "" (split_lines content)))) ]
  | None => []
  end.

(** The selector holds no results while the query is empty. *)
Definition query_guard (m : Process.Machine) : Prop :=
  Process.searchQuery (Process.sel m) = "" →
  Process.searchResults (Process.sel m) = [].

(** [P] holds of the machine a computation leaves, however it ends. *)
Definition after {A} (P : Process.Machine → Prop) (r : Process.Result A) : Prop :=
  match r with
  | Process.Return _ m | Process.Throw m | Process.Exit _ m => P m
  end.

(** The length of the list the cursor moves in: the search results in
    search mode, the files otherwise. *)
Definition active_length (s : Process.Selector) : Z :=
  if Process.searchMode s
  then Z.of_nat (length (Process.searchResults s))
  else Z.of_nat (length (Process.files s)).

(** The cursor invariant of a selector opened on a non-empty file list:
    the cursor is in range of the active list, or at 0 when that list is
    empty. *)
Definition cursor_ok (m : Process.Machine) : Prop :=
  Process.files (Process.sel m) ≠ [] →
  0 <= Process.selected (Process.sel m) ∧
  (Process.selected (Process.sel m) < active_length (Process.sel m) ∨
   Process.selected (Process.sel m) = 0).

(** The move an up or down key asks for: the arrows in both modes, [k]
    and [j] in normal mode only (in search mode they are typed text). *)
Definition nav_offset (searching : bool) (key : string) : option Z :=
  if String.eqb key Browser.key_up || negb searching && String.eqb key "k"
  then Some (-1)
  else if String.eqb key Browser.key_down || negb searching && String.eqb key "j"
  then Some 1
  else None.

Definition total_offset (searching : bool) (keys : list string) : Z :=
  fold_right (fun key acc => default 0 (nav_offset searching key) + acc) 0 keys.

Definition with_selected (s : Process.Selector) (i : Z) : Process.Selector :=
  Process.mkSelector (Process.files s) i (Process.searchMode s)
    (Process.searchQuery s) (Process.searchResults s).

(** The selector as [startSelector] leaves it. *)
Definition restarted (s : Process.Selector) : Process.Selector :=
  Process.mkSelector (Process.files s) 0 false "" [].

(** The name [showWithLess] gives the transient file in the world [w]. *)
Definition tmp_path `{Host} (w : Process.World) : string :=
  path_join os_tmpdir ("mdview-" +:+ Process.show (Process.clock w) +:+ ".txt").

Definition is_enter (key : string) : Prop :=
  key = Browser.key_cr ∨ key = Browser.key_lf.

(** None of the codes of a style holds the unit [c]. *)
Definition codes_free (c : ascii) (st : Chalk.Styler) : Prop :=
  Forall (fun oc => has_char c (fst oc) = false ∧ has_char c (snd oc) = false) st.

End Spec.

(** ** Further notions: search, terminal and start-up *)

Module Notions.
Import JsString.

(** What one file contributes to a search: the body of the loop of
    [searchInFiles] for that file. *)
Definition search_one `{Host} (store : gmap string string) (query file : string)
  : list Search.SearchResult :=
  match store !! file with
  | None => []
  | Some content =>
      match Search.first_match (Search.toLowerCase query) (split_lines content) 0 with
      | Some (i, l) =>
          [ Search.mkResult file (path_basename file) (path_relative file)
              (i + 1) (str_take 80 (Search.trim l)) ]
      | None => []
      end
  end.

(** The line [l] contains the query, whatever the case of either. *)
Definition line_matches (query l : string) : bool :=
  includes (Search.toLowerCase query) (Search.toLowerCase l).

(** The file can be read and one of its lines contains the query. *)
Definition file_matches (store : gmap string string) (query file : string) : bool :=
  match store !! file with
  | Some content => existsb (line_matches query) (split_lines content)
  | None => false
  end.

Definition can_read (store : gmap string string) (file : string) : bool :=
  match store !! file with Some _ => true | None => false end.

(** The results agree with the query in the files of the world: what the
    selector holds after a key that edits the query. *)
Definition results_fresh `{Host} (m : Process.Machine) : Prop :=
  Process.searchResults (Process.sel m)
  = if (0 <? String.length (Process.searchQuery (Process.sel m)))%nat
    then Search.searchInFiles (Process.fs_files (Process.world m))
           (Process.files (Process.sel m)) (Process.searchQuery (Process.sel m))
    else [].

(** A single code unit the search mode takes as typed text: not below the
    space, and not the delete unit, which is a backspace key. *)
Definition typed_key (key : string) : Prop :=
  String.length key = 1%nat ∧ String.leb " " key = true ∧
  key ≠ Browser.key_delete.

(** Who holds the terminal: the selector (raw mode on, listener registered,
    input flowing, no viewer pending) or the viewer (raw mode off, listener
    removed, input paused, the close callback pending). *)
Definition selector_has_terminal (m : Process.Machine) : Prop :=
  Process.stdin m = Process.mkStdin true false true ∧ Process.pending m = None.

Definition viewer_has_terminal (m : Process.Machine) : Prop :=
  Process.stdin m = Process.mkStdin false true false ∧
  ∃ p, Process.pending m = Some p.

Definition terminal_owned (cfg : Browser.Config) : Prop :=
  Browser.status cfg = Browser.Running →
  selector_has_terminal (Browser.machine cfg) ∨
  viewer_has_terminal (Browser.machine cfg).

(** What every selector state satisfies about the search: outside search
    mode there is no query and no result, and every result names one of
    the listed files, a line number from 1 on and a preview of at most 80
    units. *)
Definition search_state_ok (m : Process.Machine) : Prop :=
  (Process.searchMode (Process.sel m) = false →
     Process.searchQuery (Process.sel m) = "" ∧
     Process.searchResults (Process.sel m) = []) ∧
  Forall (fun r => In (Search.file r) (Process.files (Process.sel m)) ∧
                   1 <= Search.line r ∧
                   (String.length (Search.preview r) <= 80)%nat)
         (Process.searchResults (Process.sel m)).

(** Every code unit is below 128. *)
Fixpoint ascii_text (s : string) : bool :=
  match s with
  | EmptyString => true
  | String c rest => (N_of_ascii c <? 128)%N && ascii_text rest
  end.

(** Only white space: what [content.trim()] leaves nothing of. *)
Fixpoint blank (s : string) : bool :=
  match s with
  | EmptyString => true
  | String c rest => Search.is_space c && blank rest
  end.

(** The invocation asks for [target]: no help flag, and either an
    argument or a terminal on standard input. *)
Definition names_target (inv : Main.Invocation) (target : string) : Prop :=
  Main.includes_arg "-h" (Main.args inv) = false ∧
  Main.includes_arg "--help" (Main.args inv) = false ∧
  (Main.stdin_isTTY inv = true ∨ Main.args inv ≠ []) ∧
  Main.target_of (Main.args inv) = target.

(** The one-shot viewer [main] leaves running on a document. *)
Definition one_shot `{Host} (content name : string) (w : Process.World)
    (cfg : Browser.Config) : Prop :=
  let tmp := Spec.tmp_path w in
  Browser.status cfg = Browser.Running ∧
  Process.pending (Browser.machine cfg) = Some (Process.mkPending tmp false) ∧
  Process.fs_files (Process.world (Browser.machine cfg)) !! tmp
  = Some (Render.artifact (Process.environ w) name content) ∧
  Process.trace (Browser.machine cfg)
  = [Process.WriteFile tmp (Render.artifact (Process.environ w) name content);
     Process.Spawn "less" (Viewer.lessOptions ++ [tmp])].

End Notions.

(** * Properties *)

(** ** Strings and global replacement *)

Section StringFacts.
Import JsString Spec.

Lemma str_app_nil_r s : s +:+ "" = s.
Proof. induction s as [|c s IH]; simpl; [reflexivity | now rewrite IH]. Qed.

Lemma str_app_assoc a b c : (a +:+ b) +:+ c = a +:+ (b +:+ c).
Proof. induction a as [|x a IH]; simpl; [reflexivity | now rewrite IH]. Qed.

Lemma str_length_app a b :
  String.length (a +:+ b) = (String.length a + String.length b)%nat.
Proof. induction a as [|x a IH]; simpl; [reflexivity | now rewrite IH]. Qed.

Lemma rep_length c k : String.length (rep c k) = k.
Proof. induction k as [|k IH]; simpl; [reflexivity | now rewrite IH]. Qed.

Lemma has_char_app c a b :
  has_char c (a +:+ b) = has_char c a || has_char c b.
Proof.
  induction a as [|x a IH]; simpl; [reflexivity |].
  rewrite IH. now rewrite orb_assoc.
Qed.

Lemma str_drop_app a b : str_drop (String.length a) (a +:+ b) = b.
Proof. induction a as [|x a IH]; simpl; [now destruct b | exact IH]. Qed.

Lemma startsWith_app p s : startsWith p (p +:+ s) = true.
Proof.
  induction p as [|x p IH]; simpl; [now destruct s |].
  now rewrite Ascii.eqb_refl, IH.
Qed.

Lemma ends_with_app c a b :
  b ≠ "" → ends_with c (a +:+ b) = ends_with c b.
Proof.
  intros Hb. induction a as [|x a IH]; simpl; [reflexivity |].
  destruct (a +:+ b) eqn:E; [| exact IH].
  destruct a; simpl in E; [contradiction | discriminate].
Qed.

Lemma count_prefix_le c s : (count_prefix c s <= String.length s)%nat.
Proof.
  induction s as [|x s IH]; simpl; [lia |].
  destruct (Ascii.eqb x c); lia.
Qed.

Lemma count_prefix_rep c k b :
  starts_with c b = false → count_prefix c (rep c k +:+ b) = k.
Proof.
  intros Hb. induction k as [|k IH]; simpl.
  - destruct b as [|x b]; simpl in *; [reflexivity | now rewrite Hb].
  - now rewrite Ascii.eqb_refl, IH.
Qed.

(** A run counted inside [a] is not changed by what follows [a], when it
    cannot reach the end of [a] or cannot go on after it. *)
Lemma count_prefix_app_stop c a b :
  (a ≠ "" ∧ ends_with c a = false) ∨ starts_with c b = false →
  count_prefix c (a +:+ b) = count_prefix c a.
Proof.
  induction a as [|x a IH]; intros H.
  - destruct H as [[H _] | H]; [contradiction |].
    destruct b as [|y b]; simpl in *; [reflexivity | now rewrite H].
  - simpl. destruct (Ascii.eqb x c) eqn:Ex; [| reflexivity].
    f_equal. apply IH. destruct H as [[_ H] | H]; [left | now right].
    destruct a as [|y a]; simpl in H; [congruence |].
    split; [discriminate | exact H].
Qed.

Lemma take_not_app c t r :
  has_char c t = false → starts_with c r = true ∨ r = "" →
  take_not c (t +:+ r) = t.
Proof.
  intros Ht Hr. induction t as [|x t IH]; simpl in *.
  - destruct Hr as [Hr | ->]; [| reflexivity].
    destruct r as [|y r]; simpl in *; [discriminate | now rewrite Hr].
  - apply orb_false_elim in Ht as [Hx Ht]. rewrite Hx. f_equal. now apply IH.
Qed.

(** *** The scan of [replace] *)

Lemma replace_from_skip m x y :
  replace_from m (String.length x) (x +:+ y) = replace_from m O y.
Proof. induction x as [|c x IH]; simpl; [reflexivity | exact IH]. Qed.

Lemma replace_from_hit m x y repl :
  x ≠ "" → m (x +:+ y) = Some (repl, String.length x) →
  replace_global m (x +:+ y) = repl +:+ replace_global m y.
Proof.
  intros Hx Hm. unfold replace_global.
  destruct x as [|c x]; [contradiction |].
  simpl in *. rewrite Hm. simpl. now rewrite replace_from_skip.
Qed.

Lemma replace_from_miss m c r :
  m (String c r) = None →
  replace_global m (String c r) = String c (replace_global m r).
Proof. intros Hm. unfold replace_global. simpl. now rewrite Hm. Qed.

(** A text none of whose positions matches is left as it is. *)
Lemma replace_global_id m s :
  (∀ a b, s = a +:+ b → m b = None) → replace_global m s = s.
Proof.
  induction s as [|c s IH]; intros H; [reflexivity |].
  rewrite replace_from_miss by (apply (H ""); reflexivity).
  f_equal. apply IH. intros a b ->. apply (H (String c a)). reflexivity.
Qed.

(** The scan of [a +:+ b] splits at the border when every match that
    starts in [a] is the same with and without [b] and ends in [a]. *)
Lemma replace_from_app m a b n :
  (∀ a1 a2, a = a1 +:+ a2 → a2 ≠ "" →
     m (a2 +:+ b) = m a2 ∧
     ∀ repl len, m a2 = Some (repl, len) → (len <= String.length a2)%nat) →
  (n <= String.length a)%nat →
  replace_from m n (a +:+ b) = replace_from m n a +:+ replace_from m O b.
Proof.
  revert n. induction a as [|c a IH]; intros n H Hn.
  - simpl in *. replace n with O by lia. reflexivity.
  - assert (Htl : ∀ a1 a2, a = a1 +:+ a2 → a2 ≠ "" →
       m (a2 +:+ b) = m a2 ∧
       ∀ repl len, m a2 = Some (repl, len) → (len <= String.length a2)%nat).
    { intros a1 a2 -> Ha2. apply (H (String c a1)); [reflexivity | exact Ha2]. }
    destruct n as [|n]; simpl.
    + destruct (H "" (String c a) eq_refl ltac:(discriminate)) as [Heq Hlen].
      simpl in Heq. rewrite Heq.
      destruct (m (String c a)) as [[repl len]|] eqn:Em.
      * specialize (Hlen _ _ eq_refl). simpl in Hlen.
        rewrite IH by (auto; lia). now rewrite str_app_assoc.
      * rewrite IH by (auto; lia). reflexivity.
    + simpl in Hn. apply IH; [exact Htl | lia].
Qed.

(** A unit that no replacement text holds is not brought in by the scan. *)
Lemma replace_from_no_char c m n s :
  (∀ r repl len, has_char c r = false → m r = Some (repl, len) →
     has_char c repl = false) →
  has_char c s = false → has_char c (replace_from m n s) = false.
Proof.
  intros Hm. revert n. induction s as [|x s IH]; intros n Hs; [reflexivity |].
  pose proof Hs as Hs'. simpl in Hs'. apply orb_false_elim in Hs' as [Hx Hs'].
  destruct n as [|n]; simpl; [| now apply IH].
  destruct (m (String x s)) as [[repl len]|] eqn:Em.
  - rewrite has_char_app, (Hm _ _ _ Hs Em). simpl. now apply IH.
  - simpl. rewrite Hx. simpl. now apply IH.
Qed.

End StringFacts.

(** ** The renderer: collapsing line feeds *)

Section CollapseFacts.
Import JsString Spec Render.

Lemma match_newlines_app a b :
  (a ≠ "" ∧ ends_with LF a = false) ∨ starts_with LF b = false →
  match_newlines (a +:+ b) = match_newlines a.
Proof.
  intros H. unfold match_newlines. now rewrite count_prefix_app_stop.
Qed.

Lemma match_newlines_len s repl len :
  match_newlines s = Some (repl, len) → (len <= String.length s)%nat.
Proof.
  unfold match_newlines. destruct (3 <=? count_prefix LF s)%nat; [| discriminate].
  intros [= _ <-]. apply count_prefix_le.
Qed.

(** The scan does not look across a border where a run of line feeds
    cannot continue. *)
Lemma collapse_app a b :
  ends_with LF a = false ∨ starts_with LF b = false →
  collapse_newlines (a +:+ b) = collapse_newlines a +:+ collapse_newlines b.
Proof.
  intros H. unfold collapse_newlines, replace_global.
  apply replace_from_app; [| lia].
  intros a1 a2 -> Ha2. split.
  - apply match_newlines_app. destruct H as [H | H]; [left | now right].
    split; [exact Ha2 |]. now rewrite ends_with_app in H.
  - apply match_newlines_len.
Qed.

(** One whole run of [k] line feeds becomes [min k 2] line feeds. *)
Lemma collapse_run k b :
  starts_with LF b = false →
  collapse_newlines (rep LF k +:+ b) = rep LF (Nat.min k 2) +:+ collapse_newlines b.
Proof.
  intros Hb. unfold collapse_newlines.
  destruct (le_lt_dec 3 k) as [Hk | Hk].
  - rewrite (replace_from_hit _ _ _ (nl +:+ nl)).
    + now replace (Nat.min k 2) with 2%nat by lia.
    + destruct k; [lia | discriminate].
    + unfold match_newlines. rewrite count_prefix_rep, rep_length by exact Hb.
      destruct (Nat.leb_spec 3 k); [reflexivity | lia].
  - assert (Hone : ∀ j, (j < 3)%nat →
              match_newlines (rep LF j +:+ b) = None).
    { intros j Hj. unfold match_newlines. rewrite count_prefix_rep by exact Hb.
      destruct (Nat.leb_spec 3 j); [lia | reflexivity]. }
    destruct k as [|[|[|k]]]; try lia; simpl.
    + reflexivity.
    + rewrite replace_from_miss by (apply (Hone 1%nat); lia). reflexivity.
    + rewrite replace_from_miss by (apply (Hone 2%nat); lia).
      rewrite replace_from_miss by (apply (Hone 1%nat); lia). reflexivity.
Qed.

(** Every text is a run of line feeds followed by a text that does not
    start with one. *)
Lemma split_run s :
  ∃ b, s = rep LF (count_prefix LF s) +:+ b ∧ starts_with LF b = false.
Proof.
  induction s as [|c s (b & IH & Hb)]; [now exists "" |].
  simpl. destruct (Ascii.eqb c LF) eqn:Ec.
  - apply Ascii.eqb_eq in Ec as ->. exists b. simpl. now rewrite <- IH.
  - exists (String c s). now simpl.
Qed.

Lemma collapse_starts b :
  starts_with LF b = false → starts_with LF (collapse_newlines b) = false.
Proof.
  destruct b as [|c b]; [reflexivity |]. simpl. intros Hc.
  unfold collapse_newlines. rewrite replace_from_miss; [exact Hc |].
  unfold match_newlines. simpl. now rewrite Hc.
Qed.

Lemma includes_nl3_short j t :
  (j <= 2)%nat → starts_with LF t = false → includes nl3 t = false →
  includes nl3 (rep LF j +:+ t) = false.
Proof.
  intros Hj Ht Hin.
  assert (H0 : startsWith nl3 t = false).
  { destruct t as [|c t]; [reflexivity |]. simpl in *. now rewrite Ascii.eqb_sym, Ht. }
  assert (H1 : startsWith (rep LF 2) t = false).
  { destruct t as [|c t]; [reflexivity |]. simpl in *. now rewrite Ascii.eqb_sym, Ht. }
  assert (H2 : startsWith (rep LF 1) t = false).
  { destruct t as [|c t]; [reflexivity |]. simpl in *. now rewrite Ascii.eqb_sym, Ht. }
  destruct j as [|[|[|j]]]; try lia.
  - exact Hin.
  - change (includes nl3 (String LF t) = false).
    cbn [includes startsWith nl3 rep]. rewrite Ascii.eqb_refl.
    change (startsWith (rep LF 2) t || includes nl3 t = false).
    now rewrite H1, Hin.
  - change (includes nl3 (String LF (String LF t)) = false).
    cbn [includes startsWith nl3 rep]. rewrite !Ascii.eqb_refl.
    change ((startsWith (rep LF 1) t || (startsWith (rep LF 2) t || includes nl3 t)) = false).
    now rewrite H1, H2, Hin.
Qed.

(** No run of three line feeds is left. *)
Lemma collapse_no_nl3 s : includes nl3 (collapse_newlines s) = false.
Proof.
  remember (String.length s) as n eqn:Hn.
  revert s Hn. induction n as [n IH] using lt_wf_ind. intros s ->.
  destruct (split_run s) as (b & Hs & Hb).
  destruct (count_prefix LF s) as [|k] eqn:Ek.
  - simpl in Hs. subst b.
    destruct s as [|c s]; [reflexivity |].
    simpl in Hb. unfold collapse_newlines.
    rewrite replace_from_miss by (unfold match_newlines; simpl; now rewrite Hb).
    cbn [includes startsWith nl3 rep]. rewrite Ascii.eqb_sym, Hb. simpl.
    apply (IH (String.length s)); [simpl; lia | reflexivity].
  - rewrite Hs, collapse_run by exact Hb.
    apply includes_nl3_short; [lia | now apply collapse_starts |].
    apply (IH (String.length b)); [| reflexivity].
    rewrite Hs. rewrite str_length_app, rep_length. lia.
Qed.

Lemma startsWith_nl3_count s :
  (3 <= count_prefix LF s)%nat → startsWith nl3 s = true.
Proof.
  destruct s as [|a [|b [|c s]]]; simpl; try lia;
    destruct (Ascii.eqb a LF) eqn:Ea; try lia;
    try (destruct (Ascii.eqb b LF) eqn:Eb; try lia);
    try (destruct (Ascii.eqb c LF) eqn:Ec; try lia).
  intros _. apply Ascii.eqb_eq in Ea, Eb, Ec. subst. reflexivity.
Qed.

(** A text without three line feeds in a row is left as it is. *)
Lemma collapse_id s : includes nl3 s = false → collapse_newlines s = s.
Proof.
  intros H. apply replace_global_id. intros a b ->.
  unfold match_newlines.
  destruct (Nat.leb_spec 3 (count_prefix LF b)) as [Hk | Hk]; [| reflexivity].
  apply startsWith_nl3_count in Hk. exfalso.
  clear -H Hk. induction a as [|x a IH]; simpl in H.
  - destruct b; simpl in *; [discriminate |]. rewrite Hk in H. discriminate.
  - apply orb_false_elim in H as [_ H]. auto.
Qed.

(** What the pass keeps of a text other than line feeds. *)
Lemma collapse_no_char c s :
  c ≠ LF → has_char c s = false → has_char c (collapse_newlines s) = false.
Proof.
  intros Hc. apply replace_from_no_char. intros r repl len _.
  unfold match_newlines. destruct (3 <=? count_prefix LF r)%nat; [| discriminate].
  intros [= <- _]. simpl.
  assert (E : Ascii.eqb LF c = false) by (apply Ascii.eqb_neq; congruence).
  now rewrite E.
Qed.

Lemma collapse_nonempty s : s ≠ "" → collapse_newlines s ≠ "".
Proof.
  destruct s as [|c s]; [contradiction |]. intros _.
  unfold collapse_newlines, replace_global. simpl.
  destruct (match_newlines (String c s)) as [[repl len]|] eqn:E; [| discriminate].
  unfold match_newlines in E.
  destruct (3 <=? count_prefix LF (String c s))%nat; [| discriminate].
  injection E as <- _. discriminate.
Qed.

End CollapseFacts.

(** ** The renderer: the emphasis passes *)

Section SpanFacts.
Import JsString Spec Render.

Variables (c : ascii) (d' : string) (f : string → string).
Let d := String c d'.

Lemma match_span_miss s :
  starts_with c s = false → match_span d c f s = None.
Proof.
  intros Hs. unfold match_span, d.
  destruct s as [|x s]; [reflexivity |]. simpl in *.
  now rewrite Ascii.eqb_sym, Hs.
Qed.

Lemma has_char_starts s : has_char c s = false → starts_with c s = false.
Proof. destruct s as [|x s]; simpl; [reflexivity | now intros [? _]%orb_false_elim]. Qed.

(** The scan copies a text that does not hold the delimiter unit. *)
Lemma span_pass_skip p z :
  has_char c p = false →
  replace_global (match_span d c f) (p +:+ z)
  = p +:+ replace_global (match_span d c f) z.
Proof.
  intros Hp. induction p as [|x p IH]; [reflexivity |].
  simpl in Hp. apply orb_false_elim in Hp as [Hx Hp].
  cbn [String.append]. rewrite replace_from_miss.
  - now rewrite IH.
  - apply match_span_miss. exact Hx.
Qed.

(** The scan replaces a well-formed span by its styled content and goes on
    after it. *)
Lemma span_pass_hit t y :
  has_char c t = false → t ≠ "" →
  replace_global (match_span d c f) (d +:+ t +:+ d +:+ y)
  = f t +:+ replace_global (match_span d c f) y.
Proof.
  intros Ht Hne.
  replace (d +:+ t +:+ d +:+ y) with ((d +:+ t +:+ d) +:+ y)
    by now rewrite !str_app_assoc.
  apply replace_from_hit; [discriminate |].
  rewrite !str_app_assoc. unfold match_span.
  rewrite startsWith_app, str_drop_app.
  rewrite take_not_app; [| exact Ht | left; unfold d; simpl; apply Ascii.eqb_refl].
  destruct t as [|x t]; [contradiction |].
  rewrite str_drop_app, startsWith_app.
  do 2 f_equal. rewrite !str_length_app. lia.
Qed.

End SpanFacts.

Section DoubleFacts.
Import JsString Spec Render.

Variables (c : ascii) (f : string → string).
Let cc := String c (String c "").

(** The pass for the doubled delimiter copies a span written with the
    single delimiter, when the text after the span does not start with the
    delimiter unit. *)
Lemma span_pass_single t y :
  has_char c t = false → t ≠ "" → starts_with c y = false →
  replace_global (match_span cc c f) (String c "" +:+ t +:+ String c "" +:+ y)
  = String c "" +:+ t +:+ String c "" +:+ replace_global (match_span cc c f) y.
Proof.
  intros Ht Hne Hy.
  assert (Hmiss : ∀ z, starts_with c z = false →
            match_span cc c f (String c z) = None).
  { intros z Hz. unfold match_span, cc. cbn [startsWith].
    destruct z as [|x z]; [now rewrite Ascii.eqb_refl |].
    simpl in Hz. now rewrite Ascii.eqb_refl, Ascii.eqb_sym, Hz. }
  cbn [String.append]. rewrite replace_from_miss.
  - f_equal. rewrite (span_pass_skip c (String c "") f t) by exact Ht.
    f_equal. cbn [String.append]. now rewrite replace_from_miss by now apply Hmiss.
  - apply Hmiss. destruct t as [|x t]; [contradiction |].
    simpl in *. now apply orb_false_elim in Ht as [? _].
Qed.

End DoubleFacts.

(** ** Styling and margin keep out the units they do not write *)

Section StyleFacts.
Import JsString Spec Render Chalk.

Variable c : ascii.

Lemma openAll_free st : codes_free c st → has_char c (openAll st) = false.
Proof.
  induction 1 as [|[o cl] st [Ho _] _ IH]; [reflexivity |].
  simpl in *. now rewrite has_char_app, IH, Ho.
Qed.

Lemma closeAll_free st : codes_free c st → has_char c (closeAll st) = false.
Proof.
  induction 1 as [|[o cl] st [_ Hc] _ IH]; [reflexivity |].
  simpl in *. now rewrite has_char_app, IH, Hc.
Qed.

Lemma stringReplaceAll_free s sub by_ :
  has_char c sub = false → has_char c by_ = false → has_char c s = false →
  has_char c (stringReplaceAll s sub by_) = false.
Proof.
  intros Hsub Hby Hs. unfold stringReplaceAll.
  destruct sub as [|x sub]; [exact Hs |].
  apply replace_from_no_char; [| exact Hs].
  intros r repl len _. destruct (startsWith (String x sub) r); [| discriminate].
  intros E. assert (repl = String x sub +:+ by_) as -> by congruence.
  now rewrite has_char_app, Hsub, Hby.
Qed.

Lemma reopen_free st s :
  codes_free c st → has_char c s = false →
  has_char c
    (fold_left (fun acc oc => stringReplaceAll acc (snd oc) (fst oc)) st s) = false.
Proof.
  intros Hst. revert s. induction Hst as [|[o cl] st [Ho Hc] _ IH]; intros s Hs.
  - exact Hs.
  - simpl. apply IH. now apply stringReplaceAll_free.
Qed.

Lemma encaseCRLF_free p q s :
  c ≠ LF → c ≠ CR →
  has_char c p = false → has_char c q = false → has_char c s = false →
  has_char c (encaseCRLF p q s) = false.
Proof.
  intros HLF HCR Hp Hq.
  assert (ELF : Ascii.eqb LF c = false) by (apply Ascii.eqb_neq; congruence).
  assert (ECR : Ascii.eqb CR c = false) by (apply Ascii.eqb_neq; congruence).
  enough (H : ∀ s,
    (has_char c s = false → has_char c (encaseCRLF p q s) = false) ∧
    (∀ x, has_char c (String x s) = false →
          has_char c (encaseCRLF p q (String x s)) = false))
    by (intros Hs; now apply (H s)).
  clear s. induction s as [|a s [IH1 IH2]].
  - split; [reflexivity |]. intros x Hx. simpl.
    destruct (Ascii.eqb x LF); [| exact Hx].
    rewrite has_char_app, Hp. simpl. now rewrite ELF, str_app_nil_r, Hq.
  - split; [apply IH2 |]. intros x Hx.
    pose proof Hx as Hx'. simpl in Hx'.
    apply orb_false_elim in Hx' as [Hx1 Hx2].
    pose proof Hx2 as Hx3. apply orb_false_elim in Hx3 as [Ha Hs].
    cbn [encaseCRLF]. destruct (Ascii.eqb x LF).
    + rewrite has_char_app, Hp. cbn [has_char orb]. rewrite ELF. cbn [orb].
      rewrite has_char_app, Hq. cbn [orb]. now apply IH2.
    + destruct (Ascii.eqb x CR && Ascii.eqb a LF).
      * rewrite has_char_app, Hp. cbn [has_char orb]. rewrite ECR, ELF. cbn [orb].
        rewrite has_char_app, Hq. cbn [orb]. now apply IH1.
      * cbn [has_char]. rewrite Hx1. cbn [orb]. now apply IH2.
Qed.

(** [applyStyle] writes its codes and the units of the text only. *)
Lemma applyStyle_free level st s :
  c ≠ LF → c ≠ CR → codes_free c st → has_char c s = false →
  has_char c (applyStyle level st s) = false.
Proof.
  intros HLF HCR Hst Hs. unfold applyStyle.
  destruct level as [|level]; [exact Hs |].
  destruct s as [|x s]; [reflexivity |].
  set (s1 := if has_char ESC (String x s) then _ else _).
  assert (H1 : has_char c s1 = false).
  { subst s1. destruct (has_char ESC (String x s)); [| exact Hs].
    now apply reopen_free. }
  rewrite !has_char_app, openAll_free, closeAll_free by exact Hst.
  rewrite orb_false_r. cbn [orb].
  destruct (has_char LF s1); [| exact H1].
  apply encaseCRLF_free; auto using openAll_free, closeAll_free.
Qed.

Lemma split_lines_free s :
  has_char c s = false →
  Forall (fun l => has_char c l = false) (split_lines s).
Proof.
  induction s as [|x s IH]; intros Hs.
  - now repeat constructor.
  - simpl in Hs. apply orb_false_elim in Hs as [Hx Hs].
    specialize (IH Hs). simpl. destruct (Ascii.eqb x LF).
    + now constructor.
    + destruct (split_lines s) as [|l ls].
      * repeat constructor. simpl. now rewrite Hx.
      * inversion IH; subst. constructor; [| assumption].
        simpl. now rewrite Hx.
Qed.

Lemma join_lines_free ls :
  c ≠ LF → Forall (fun l => has_char c l = false) ls →
  has_char c (join_lines ls) = false.
Proof.
  intros HLF.
  assert (ELF : Ascii.eqb LF c = false) by (apply Ascii.eqb_neq; congruence).
  induction 1 as [|l ls Hl Hls IH]; [reflexivity |].
  unfold join_lines in *. cbn [String.concat].
  destruct ls as [|l' ls]; [exact Hl |].
  rewrite !has_char_app, Hl, IH. unfold nl. simpl. now rewrite ELF.
Qed.

Lemma pad_lines_free s :
  c ≠ LF → c ≠ " "%char → has_char c s = false →
  has_char c (pad_lines s) = false.
Proof.
  intros HLF HSP Hs.
  assert (ESP : Ascii.eqb " " c = false) by (apply Ascii.eqb_neq; congruence).
  unfold pad_lines. apply join_lines_free; [exact HLF |].
  induction (split_lines_free s Hs) as [|l ls Hl _ IH]; simpl.
  - constructor.
  - constructor; [| exact IH]. simpl. now rewrite ESP, Hl.
Qed.

Lemma split_lines_cons s : ∃ l ls, split_lines s = l :: ls.
Proof.
  destruct s as [|x s]; simpl; [eauto |].
  destruct (Ascii.eqb x LF); [eauto |]. destruct (split_lines s); eauto.
Qed.

(** The margin keeps every unit of the text. *)
Lemma pad_lines_keeps s :
  c ≠ LF → has_char c s = true → has_char c (pad_lines s) = true.
Proof.
  intros HLF. unfold pad_lines, join_lines.
  induction s as [|x s IH]; [discriminate |].
  cbn [has_char split_lines].
  destruct (split_lines_cons s) as (l & ls & El). rewrite El in *.
  destruct (Ascii.eqb x LF) eqn:Ex.
  - apply Ascii.eqb_eq in Ex as ->.
    assert (E : Ascii.eqb LF c = false) by (apply Ascii.eqb_neq; congruence).
    rewrite E. cbn [orb]. intros Hs. specialize (IH Hs).
    cbn [map String.concat] in *. rewrite !has_char_app, IH.
    now rewrite !orb_true_r.
  - intros Hs. cbn [map String.concat] in *.
    destruct (Ascii.eqb x c) eqn:Exc.
    + destruct (map _ ls); rewrite ?has_char_app; cbn [has_char String.append];
        rewrite Exc; now rewrite ?orb_true_r.
    + cbn [orb] in Hs. specialize (IH Hs).
      destruct (map _ ls); rewrite ?has_char_app in *;
        cbn [has_char String.append] in *; rewrite Exc; exact IH.
Qed.

End StyleFacts.

(** ** The renderer: what the passes guarantee *)

Section RenderClaims.
Import JsString Spec Render.

(** C4, as stated, fails: two consecutive empty lines between two texts
    are a run of fewer than three blank lines, and the pass reduces them
    to one. *)
Lemma collapse_changes_two_blank_lines :
  max_blank_run ("a" +:+ rep LF 3 +:+ "b") = 2%nat ∧
  collapse_newlines ("a" +:+ rep LF 3 +:+ "b") = "a" +:+ rep LF 2 +:+ "b" ∧
  collapse_newlines ("a" +:+ rep LF 3 +:+ "b") ≠ "a" +:+ rep LF 3 +:+ "b".
Proof. repeat split. discriminate. Qed.

(** C4, amended: the pass counts line feeds, not blank lines.  Its output
    never holds three line feeds in a row; a text without three line
    feeds in a row is returned unchanged; and a whole run of [k] line
    feeds, between a text that does not end and a text that does not
    start with a line feed, becomes [min k 2] line feeds: runs of three
    or more become exactly two line feeds (one empty line), runs of one
    or two stay. *)
Theorem collapse_newlines_runs (s : string) :
  includes nl3 (collapse_newlines s) = false ∧
  (includes nl3 s = false → collapse_newlines s = s) ∧
  (∀ a b k, s = a +:+ rep LF k +:+ b →
     ends_with LF a = false → starts_with LF b = false →
     collapse_newlines s
     = collapse_newlines a +:+ rep LF (Nat.min k 2) +:+ collapse_newlines b).
Proof.
  split; [apply collapse_no_nl3 |]. split; [apply collapse_id |].
  intros a b k -> Ha Hb.
  rewrite collapse_app by now left.
  now rewrite collapse_run.
Qed.

Lemma collapse_newlines_runs_witness :
  ends_with LF "a" = false ∧ starts_with LF "b" = false ∧
  collapse_newlines ("a" +:+ rep LF 4 +:+ "b") = "a" +:+ rep LF 2 +:+ "b".
Proof.
  split; [reflexivity |]. split; [reflexivity |].
  destruct (collapse_newlines_runs ("a" +:+ rep LF 4 +:+ "b")) as (_ & _ & H).
  exact (H "a" "b" 4%nat eq_refl eq_refl eq_refl).
Defined.

Lemma marker_split s :
  has_marker s = false → has_char STAR s = false ∧ has_char BACKTICK s = false.
Proof. unfold has_marker. apply orb_false_elim. Qed.

Lemma collapse_span k pre t post :
  collapse_newlines (pre +:+ delimiter k +:+ t +:+ delimiter k +:+ post)
  = collapse_newlines pre +:+ delimiter k +:+ collapse_newlines t
      +:+ delimiter k +:+ collapse_newlines post.
Proof.
  rewrite (collapse_app pre) by (right; now destruct k).
  rewrite (collapse_app (delimiter k)) by (left; now destruct k).
  rewrite (collapse_app t) by (right; now destruct k).
  rewrite (collapse_app (delimiter k)) by (left; now destruct k).
  replace (collapse_newlines (delimiter k)) with (delimiter k) by now destruct k.
  reflexivity.
Qed.

Lemma styler_free_star k : codes_free STAR (styler k).
Proof. destruct k; repeat constructor. Qed.

Lemma styler_free_backtick k : codes_free BACKTICK (styler k).
Proof. destruct k; repeat constructor. Qed.

Lemma styled_free level k t :
  has_marker t = false →
  has_char STAR (Chalk.applyStyle level (styler k) t) = false ∧
  has_char BACKTICK (Chalk.applyStyle level (styler k) t) = false.
Proof.
  intros [H1 H2]%marker_split. split; apply applyStyle_free;
    auto using styler_free_star, styler_free_backtick; discriminate.
Qed.

Lemma collapse_marker_free s :
  has_marker s = false → has_marker (collapse_newlines s) = false.
Proof.
  intros [H1 H2]%marker_split. unfold has_marker.
  now rewrite !collapse_no_char by (discriminate || assumption).
Qed.

(** The first pass can be pushed through the segments. *)
Lemma collapse_doc segs : ∀ pre,
  collapse_newlines (doc_text pre segs)
  = doc_text (collapse_newlines pre) (map collapse_seg segs).
Proof.
  induction segs as [|g segs IH]; intros pre; [reflexivity |].
  cbn [doc_text map collapse_seg seg_kind seg_body seg_after].
  now rewrite collapse_span, IH.
Qed.

Lemma segs_ok_collapse segs : segs_ok segs → segs_ok (map collapse_seg segs).
Proof.
  induction segs as [|g segs IH]; [trivial |].
  intros (Hb & Hne & Ha & Hsep & Hrest).
  cbn [map segs_ok collapse_seg seg_kind seg_body seg_after].
  repeat split; auto using collapse_marker_free, collapse_nonempty.
  destruct Hsep as [-> | Hsep]; [now left | right; now apply collapse_nonempty].
Qed.

Lemma doc_text_stage level segs : ∀ pre,
  doc_text pre segs = stage_text level 0 pre segs.
Proof.
  induction segs as [|g segs IH]; intros pre; [reflexivity |].
  cbn [doc_text stage_text]. unfold shown.
  replace (processed 0 (seg_kind g)) with false by now destruct (seg_kind g).
  now rewrite IH, !str_app_assoc.
Qed.

Lemma styled_text_stage level segs : ∀ pre,
  styled_text level pre segs
  = stage_text level 3 (collapse_newlines pre) (map collapse_seg segs).
Proof.
  induction segs as [|g segs IH]; intros pre; [reflexivity |].
  cbn [styled_text stage_text map]. unfold shown.
  replace (processed 3 (seg_kind (collapse_seg g))) with true
    by now destruct g as [[] ? ?].
  now rewrite IH.
Qed.

(** What follows a span does not start with a marker unit. *)
Lemma stage_text_starts c level j after rest :
  has_char c after = false → rest = [] ∨ after ≠ "" →
  starts_with c (stage_text level j after rest) = false.
Proof.
  intros Hc [-> | Hne]; [now apply has_char_starts |].
  destruct after as [|x after]; [contradiction |].
  destruct rest; simpl in *; now apply orb_false_elim in Hc as [? _].
Qed.

(** The three passes on a text without their unit, on a span of their
    marker, and the bold pass on an italic span. *)
Lemma bold_pass_skip level p z :
  has_char STAR p = false → bold_pass level (p +:+ z) = p +:+ bold_pass level z.
Proof. exact (span_pass_skip STAR (String STAR "") _ p z). Qed.

Lemma italic_pass_skip level p z :
  has_char STAR p = false →
  italic_pass level (p +:+ z) = p +:+ italic_pass level z.
Proof. exact (span_pass_skip STAR "" _ p z). Qed.

Lemma code_pass_skip level p z :
  has_char BACKTICK p = false →
  code_pass level (p +:+ z) = p +:+ code_pass level z.
Proof. exact (span_pass_skip BACKTICK "" _ p z). Qed.

Lemma bold_pass_hit level t y :
  has_char STAR t = false → t ≠ "" →
  bold_pass level ("**" +:+ t +:+ "**" +:+ y)
  = Chalk.applyStyle level Chalk.bold t +:+ bold_pass level y.
Proof. exact (span_pass_hit STAR (String STAR "") _ t y). Qed.

Lemma italic_pass_hit level t y :
  has_char STAR t = false → t ≠ "" →
  italic_pass level ("*" +:+ t +:+ "*" +:+ y)
  = Chalk.applyStyle level Chalk.italic t +:+ italic_pass level y.
Proof. exact (span_pass_hit STAR "" _ t y). Qed.

Lemma code_pass_hit level t y :
  has_char BACKTICK t = false → t ≠ "" →
  code_pass level ("`" +:+ t +:+ "`" +:+ y)
  = Chalk.applyStyle level Chalk.code_style t +:+ code_pass level y.
Proof. exact (span_pass_hit BACKTICK "" _ t y). Qed.

Lemma bold_pass_single level t y :
  has_char STAR t = false → t ≠ "" → starts_with STAR y = false →
  bold_pass level ("*" +:+ t +:+ "*" +:+ y)
  = "*" +:+ t +:+ "*" +:+ bold_pass level y.
Proof. exact (span_pass_single STAR _ t y). Qed.

(** Each emphasis pass styles the spans of its marker and leaves the rest
    of the text, styled spans and spans of the later passes, as it is. *)
Lemma pass_stage level k segs : ∀ pre,
  has_marker pre = false → segs_ok segs →
  pass_of level k (stage_text level (pass_index k) pre segs)
  = stage_text level (S (pass_index k)) pre segs.
Proof.
  induction segs as [|[kg body after] segs IH];
    intros pre [Hp1 Hp2]%marker_split Hok.
  - cbn [stage_text]. rewrite <- (str_app_nil_r pre) at 1.
    destruct k; cbn [pass_of].
    + rewrite bold_pass_skip by exact Hp1. apply str_app_nil_r.
    + rewrite italic_pass_skip by exact Hp1. apply str_app_nil_r.
    + rewrite code_pass_skip by exact Hp2. apply str_app_nil_r.
  - destruct Hok as (Hb & Hne & Ha & Hsep & Hrest).
    cbn [seg_kind seg_body seg_after] in Hb, Hne, Ha, Hsep.
    specialize (IH after Ha Hrest).
    destruct (styled_free level kg body Hb) as [Hs1 Hs2].
    destruct (marker_split _ Hb) as [Hb1 Hb2].
    destruct (marker_split _ Ha) as [Ha1 Ha2].
    cbn [stage_text]. unfold shown. cbn [seg_kind seg_body seg_after].
    destruct k, kg; cbn [pass_index processed Nat.leb pass_of] in *;
      cbn [delimiter styler] in *; rewrite ?str_app_assoc.
    + (* bold pass, bold span *)
      rewrite bold_pass_skip, bold_pass_hit by assumption. now rewrite IH.
    + (* bold pass, italic span *)
      rewrite bold_pass_skip, bold_pass_single, IH;
        auto using stage_text_starts.
    + (* bold pass, code span *)
      rewrite bold_pass_skip by exact Hp1.
      rewrite <- !str_app_assoc.
      rewrite (bold_pass_skip _ (("`" +:+ body) +:+ "`"))
        by (now rewrite !has_char_app, Hb1).
      now rewrite IH, !str_app_assoc.
    + (* italic pass, styled bold span *)
      rewrite italic_pass_skip, italic_pass_skip by assumption. now rewrite IH.
    + (* italic pass, italic span *)
      rewrite italic_pass_skip, italic_pass_hit by assumption. now rewrite IH.
    + (* italic pass, code span *)
      rewrite italic_pass_skip by exact Hp1.
      rewrite <- !str_app_assoc.
      rewrite (italic_pass_skip _ (("`" +:+ body) +:+ "`"))
        by (now rewrite !has_char_app, Hb1).
      now rewrite IH, !str_app_assoc.
    + (* code pass, styled bold span *)
      rewrite code_pass_skip, code_pass_skip by assumption. now rewrite IH.
    + (* code pass, styled italic span *)
      rewrite code_pass_skip, code_pass_skip by assumption. now rewrite IH.
    + (* code pass, code span *)
      rewrite code_pass_skip, code_pass_hit by assumption. now rewrite IH.
Qed.

Lemma stage3_marker_free level segs : ∀ pre,
  has_marker pre = false → segs_ok segs →
  has_char STAR (stage_text level 3 pre segs) = false ∧
  has_char BACKTICK (stage_text level 3 pre segs) = false.
Proof.
  induction segs as [|[kg body after] segs IH];
    intros pre [Hp1 Hp2]%marker_split Hok; [now split |].
  destruct Hok as (Hb & Hne & Ha & Hsep & Hrest).
  cbn [seg_kind seg_body seg_after] in Hb, Hne, Ha, Hsep.
  destruct (IH after Ha Hrest) as [IH1 IH2].
  destruct (styled_free level kg body Hb) as [Hs1 Hs2].
  cbn [stage_text]. unfold shown. cbn [seg_kind seg_body seg_after].
  replace (processed 3 kg) with true by now destruct kg.
  split; rewrite !has_char_app.
  - now rewrite Hp1, Hs1, IH1.
  - now rewrite Hp2, Hs2, IH2.
Qed.

(** C5, as stated, fails: an asterisk without a partner stays in the
    output of the passes (and of [render], when the upstream conversion
    hands the text on unchanged), so does the odd asterisk of a badly
    closed span, and so do the asterisks of well-formed spans that touch
    one another. *)
Lemma render_post_leaks_unpaired_marker :
  has_marker "2 * 3" = true ∧ has_marker (render_post 3 "2 * 3") = true ∧
  has_marker (render (H := plain_host) ∅ "2 * 3") = true ∧
  has_marker "**bold*" = true ∧ has_marker (render_post 3 "**bold*") = true ∧
  has_marker (render_post 3 "*a**b***c**") = true.
Proof. repeat split. Qed.

(** What [render] makes of well-formed spans that are kept apart. *)
Lemma render_post_styled (level : nat) (pre : string) (segs : list Segment) :
  has_marker pre = false → segs_ok segs →
  render_post level (doc_text pre segs) = pad_lines (styled_text level pre segs).
Proof.
  intros Hpre Hok.
  pose proof (collapse_marker_free _ Hpre) as Hpre'.
  pose proof (segs_ok_collapse _ Hok) as Hok'.
  unfold render_post.
  rewrite collapse_doc, (doc_text_stage level).
  change (pad_lines
            (pass_of level Code (pass_of level Italic (pass_of level Bold
               (stage_text level (pass_index Bold) (collapse_newlines pre)
                  (map collapse_seg segs)))))
          = pad_lines (styled_text level pre segs)).
  rewrite (pass_stage level Bold) by assumption.
  rewrite (pass_stage level Italic) by assumption.
  rewrite (pass_stage level Code) by assumption.
  now rewrite styled_text_stage.
Qed.

(** C5, amended: the second pass re-interprets well-formed spans that are
    kept apart.  When the converted text is made of spans – a delimiter
    [**], [*] or [`], a non-empty content, the same delimiter – with a text
    before the first, after the last, and a non-empty text between any two,
    and contents and texts hold no asterisk and no backtick, then [render]
    replaces every span by its content styled bold, italic or as code, and
    its output holds no asterisk and no backtick.  Markers that form no
    such span, and spans that touch, are not covered. *)
Theorem render_post_spans (level : nat) (pre : string) (segs : list Segment) :
  has_marker pre = false → segs_ok segs →
  render_post level (doc_text pre segs) = pad_lines (styled_text level pre segs) ∧
  has_marker (render_post level (doc_text pre segs)) = false.
Proof.
  intros Hpre Hok.
  pose proof (collapse_marker_free _ Hpre) as Hpre'.
  pose proof (segs_ok_collapse _ Hok) as Hok'.
  pose proof (render_post_styled level pre segs Hpre Hok) as E.
  split; [exact E |].
  rewrite E, styled_text_stage.
  destruct (stage3_marker_free level _ _ Hpre' Hok') as [H1 H2].
  unfold has_marker. now rewrite !pad_lines_free by (discriminate || assumption).
Qed.

Lemma render_post_spans_witness :
  let segs := [ mkSegment Italic "a" " x "; mkSegment Bold "b" " y ";
                mkSegment Code "c" "" ] in
  doc_text "see " segs = "see *a* x **b** y `c`" ∧
  has_marker (render_post 3 "see *a* x **b** y `c`") = false.
Proof.
  intros segs. split; [reflexivity |].
  apply (render_post_spans 3 "see " segs); [reflexivity |].
  repeat split; (discriminate || (right; discriminate) || (left; reflexivity)).
Defined.

End RenderClaims.

(** ** The renderer and the colour-disable variable *)

Section ColourClaims.
Import JsString Spec Render.

Lemma applyStyle_inverse_black_esc s :
  s ≠ "" → has_char ESC (Chalk.applyStyle 3 Chalk.inverse_black s) = true.
Proof.
  destruct s as [|x s]; [contradiction |]. intros _.
  unfold Chalk.applyStyle. now rewrite has_char_app.
Qed.

(** With colours off, the passes of [render] add no escape unit. *)
Lemma render_post_level0_no_esc r :
  has_char ESC r = false → has_char ESC (render_post 0 r) = false.
Proof.
  intros Hr. unfold render_post, code_pass, italic_pass, bold_pass.
  apply pad_lines_free; [discriminate | discriminate |].
  assert (Hspan : ∀ d c s, has_char ESC s = false →
    has_char ESC
      (replace_global (match_span d c (Chalk.applyStyle 0 (styler Bold))) s) = false
    ∧ has_char ESC
      (replace_global (match_span d c (Chalk.applyStyle 0 (styler Italic))) s) = false
    ∧ has_char ESC
      (replace_global (match_span d c (Chalk.applyStyle 0 (styler Code))) s) = false).
  { intros d c s Hs.
    assert (Hm : ∀ st r0 repl len, has_char ESC r0 = false →
              match_span d c (Chalk.applyStyle 0 st) r0 = Some (repl, len) →
              has_char ESC repl = false).
    { intros st r0 repl len Hr0. unfold match_span.
      destruct (startsWith d r0); [| discriminate].
      set (body := str_drop (String.length d) r0).
      assert (Hbody : has_char ESC body = false).
      { subst body. clear -Hr0. revert r0 Hr0.
        induction (String.length d) as [|n IH]; intros r0 Hr0; [exact Hr0 |].
        destruct r0 as [|y r0]; [reflexivity |]. simpl in *.
        apply orb_false_elim in Hr0 as [_ Hr0]. auto. }
      assert (Htake : has_char ESC (take_not c body) = false).
      { clear -Hbody. induction body as [|y body IH]; [reflexivity |].
        simpl in *. apply orb_false_elim in Hbody as [Hy Hb].
        destruct (Ascii.eqb y c); [reflexivity |]. simpl. now rewrite Hy, IH. }
      destruct (take_not c body) as [|y t] eqn:Et; [discriminate |].
      destruct (startsWith d _); [| discriminate].
      intros [= <- _]. exact Htake. }
    repeat split; apply replace_from_no_char; eauto. }
  apply Hspan, Hspan, Hspan.
  apply collapse_no_char; [discriminate | exact Hr].
Qed.

(** C2, as stated, fails: with the variable set, and an upstream
    conversion that adds no styling at all, the output of [render] holds
    escape sequences. *)
Lemma render_ignores_no_color :
  ({[ "NO_COLOR" := "1" ]} : Env) !! "NO_COLOR" = Some "1" ∧
  has_char ESC
    (render (H := plain_host) {[ "NO_COLOR" := "1" ]} "**a**") = true.
Proof. split; reflexivity. Qed.

Lemma applyStyle_level3_esc k t :
  t ≠ "" → has_char ESC (Chalk.applyStyle 3 (styler k) t) = true.
Proof.
  destruct t as [|x t]; [contradiction |]. intros _.
  unfold Chalk.applyStyle. rewrite has_char_app. now destruct k.
Qed.

(** C2, amended: the colour level is forced to 3 when the program loads,
    whatever the environment holds, so the styling [glow.js] adds itself
    does not regard the color-disable variable.  In every environment,
    with the variable set or not, and whatever the upstream conversion
    returns: the text handed to the viewer holds escape sequences, its
    header being styled; and whenever the converted text holds well-formed
    spans kept apart, the second pass of [render] itself writes escape
    sequences. *)
Theorem colour_level_forced `{Host} (env : Env) (filename content : string) :
  has_char ESC (artifact env filename content) = true ∧
  ∀ pre g segs,
    has_marker pre = false → segs_ok (g :: segs) →
    has_char ESC (render_post (chalk_level env) (doc_text pre (g :: segs))) = true.
Proof.
  split.
  - unfold artifact, chalk_level.
    rewrite !has_char_app, applyStyle_inverse_black_esc by discriminate.
    reflexivity.
  - intros pre g segs Hpre Hok. unfold chalk_level.
    rewrite render_post_styled by assumption.
    apply pad_lines_keeps; [discriminate |].
    destruct Hok as (_ & Hne & _). cbn [styled_text].
    rewrite !has_char_app, applyStyle_level3_esc by now apply collapse_nonempty.
    now rewrite orb_true_r.
Qed.

End ColourClaims.

(** ** The document store *)

Section StoreClaims.
Import JsString Spec Store.
Context `{Host}.

Lemma Dirent_forall_ind (P : Dirent → Prop) :
  (∀ n, P (DFile n)) → (∀ n, P (DOther n)) → (∀ n, P (DDir n None)) →
  (∀ n es, Forall P es → P (DDir n (Some es))) →
  ∀ e, P e.
Proof.
  intros Hf Ho Hn Hs. fix IH 1.
  intros [n | n [es|] | n]; [apply Hf | | apply Hn | apply Ho].
  apply Hs. induction es as [|e es IHes]; constructor; [apply IH | exact IHes].
Qed.

Lemma Listed_cons dir e es p :
  Listed dir (e :: es) p ↔ Listed dir [e] p ∨ Listed dir es p.
Proof.
  split.
  - intros HL. inversion HL; subst;
      match goal with Hin : In _ (_ :: _) |- _ => destruct Hin as [-> | Hin] end.
    + left. apply Listed_file; [now left | assumption].
    + right. now apply Listed_file.
    + left. eapply Listed_dir; [now left | eassumption ..].
    + right. eapply Listed_dir; eassumption.
  - intros [HL | HL]; inversion HL; subst.
    + match goal with Hin : In _ [_] |- _ => destruct Hin as [-> | []] end.
      apply Listed_file; [now left | assumption].
    + match goal with Hin : In _ [_] |- _ => destruct Hin as [-> | []] end.
      eapply Listed_dir; [now left | eassumption ..].
    + apply Listed_file; [now right | assumption].
    + eapply Listed_dir; [right; eassumption | eassumption ..].
Qed.

Lemma Listed_nil dir p : ¬ Listed dir [] p.
Proof. intros HL. inversion HL; subst; contradiction. Qed.

Lemma Listed_one_file dir n p :
  Listed dir [DFile n] p ↔
  p = path_join dir n ∧
  (endsWith ".md" n = true ∨ endsWith ".markdown" n = true).
Proof.
  split.
  - intros HL. inversion HL; subst;
      match goal with Hin : In _ [_] |- _ => destruct Hin as [E | []] end;
      [| discriminate].
    injection E as ->. now split.
  - intros [-> Hmd]. apply Listed_file; [now left | exact Hmd].
Qed.

Lemma Listed_one_other dir n p : ¬ Listed dir [DOther n] p.
Proof.
  intros HL. inversion HL; subst;
    match goal with Hin : In _ [_] |- _ => destruct Hin as [E | []] end;
    discriminate.
Qed.

Lemma Listed_one_dir dir n listing p :
  Listed dir [DDir n listing] p ↔
  ∃ sub, listing = Some sub ∧ startsWith "." n = false ∧
         n ≠ "node_modules" ∧ Listed (path_join dir n) sub p.
Proof.
  split.
  - intros HL. inversion HL; subst;
      match goal with Hin : In _ [_] |- _ => destruct Hin as [E | []] end;
      [discriminate |].
    injection E as -> ->. eauto.
  - intros (sub & -> & Hdot & Hnm & Hsub).
    eapply Listed_dir; [now left | eassumption ..].
Qed.

Lemma descends_spec name :
  descends name = true ↔ startsWith "." name = false ∧ name ≠ "node_modules".
Proof.
  unfold descends. rewrite andb_true_iff, !negb_true_iff, String.eqb_neq.
  reflexivity.
Qed.

Lemma is_markdown_spec name :
  is_markdown name = true ↔
  endsWith ".md" name = true ∨ endsWith ".markdown" name = true.
Proof. unfold is_markdown. apply orb_true_iff. Qed.

Lemma In_sort p l : In p (sort l) ↔ In p l.
Proof.
  unfold sort. split; apply Permutation_in.
  - apply merge_sort_Permutation.
  - symmetry. apply merge_sort_Permutation.
Qed.

Lemma for_of_listed entries :
  Forall adds_listed entries →
  ∀ dir acc res,
    for_of (visit dir) entries acc = Some res →
    ∀ p, In p res ↔ In p acc ∨ Listed dir entries p.
Proof.
  induction 1 as [|e es He _ IH]; intros dir acc res Hres p; simpl in Hres.
  - injection Hres as <-. split; [now left |].
    intros [? | HL]; [assumption | now apply Listed_nil in HL].
  - destruct (visit dir e acc) as [acc'|] eqn:Ev; [| discriminate].
    rewrite (IH _ _ _ Hres p), (He _ _ _ Ev p), (Listed_cons dir e es p).
    clear. tauto.
Qed.

Lemma visit_listed e : adds_listed e.
Proof.
  induction e as [n | n | n | n es IH] using Dirent_forall_ind;
    intros dir results res Hres p; simpl in Hres.
  - rewrite Listed_one_file, <- is_markdown_spec.
    destruct (is_markdown n) eqn:Emd; injection Hres as <-.
    + rewrite in_app_iff. simpl. intuition.
    + intuition congruence.
  - injection Hres as <-. pose proof (Listed_one_other dir n p). tauto.
  - rewrite Listed_one_dir.
    destruct (descends n); [discriminate |]. injection Hres as <-.
    split; [now left |]. intros [? | (sub & [=] & _)]. assumption.
  - rewrite Listed_one_dir. destruct (descends n) eqn:Ed.
    + destruct (for_of (visit (path_join dir n)) es []) as [sub|] eqn:Esub;
        [| discriminate].
      injection Hres as <-.
      pose proof (for_of_listed es IH _ _ _ Esub p) as Hsub.
      apply descends_spec in Ed as [Hdot Hnm].
      rewrite in_app_iff, In_sort, Hsub. split.
      * intros [? | [[] | HL]]; [now left | right]. eauto.
      * intros [? | (sub' & [= <-] & _ & _ & HL)]; [now left | right; now right].
    + injection Hres as <-. split; [now left |].
      intros [? | (sub' & _ & Hdot & Hnm & _)]; [assumption |].
      assert (descends n = true) by now apply descends_spec.
      congruence.
Qed.

(** The scan completes when every directory it enters can be read. *)
Lemma for_of_total entries :
  forallb readable entries = true →
  ∀ dir acc, ∃ res, for_of (visit dir) entries acc = Some res.
Proof.
  assert (Hv : ∀ e, readable e = true →
               ∀ dir acc, ∃ res, visit dir e acc = Some res).
  { induction e as [n | n | n | n es IH] using Dirent_forall_ind;
      intros Hr dir acc; simpl in *.
    - destruct (is_markdown n); eauto.
    - eauto.
    - destruct (descends n); [discriminate | eauto].
    - destruct (descends n); [| eauto].
      assert (Hsub : ∀ d a, ∃ r, for_of (visit d) es a = Some r).
      { clear -IH Hr. induction IH as [|e es He _ IHes]; intros d a; simpl in *.
        - eauto.
        - apply andb_true_iff in Hr as [Hr1 Hr2].
          destruct (He Hr1 d a) as [a' ->]. now apply IHes. }
      destruct (Hsub (path_join dir n) []) as [r ->]. eauto. }
  induction entries as [|e es IH]; intros Hr dir acc; simpl in *.
  - eauto.
  - apply andb_true_iff in Hr as [Hr1 Hr2].
    destruct (Hv e Hr1 dir acc) as [a' ->]. now apply IH.
Qed.

(** What a pruned directory holds is never read. *)
Lemma visit_blind e : ∀ dir acc, visit dir (blind e) acc = visit dir e acc.
Proof.
  induction e as [n | n | n | n es IH] using Dirent_forall_ind;
    intros dir acc; simpl; try reflexivity.
  - destruct (descends n) eqn:Ed; simpl; now rewrite Ed.
  - destruct (descends n) eqn:Ed; simpl; rewrite Ed; [| reflexivity].
    assert (Hsub : ∀ d a, for_of (visit d) (map blind es) a = for_of (visit d) es a).
    { clear -IH. induction IH as [|e es He _ IHes]; intros d a; simpl.
      - reflexivity.
      - rewrite He. destruct (visit d e a); [apply IHes | reflexivity]. }
    now rewrite Hsub.
Qed.

(** C3: when [findMarkdownFiles] returns, its result is sorted ascending
    by full path in code-unit order and holds exactly the files under the
    directory whose names end in [.md] or [.markdown] and that are reached
    without entering a directory whose name starts with a dot or is
    [node_modules]; it returns whenever every directory it enters can be
    read; and what pruned directories hold is never read: the result is
    the same when they are unreadable. *)
Theorem findMarkdownFiles_exact (dir : string) (entries : list Dirent) :
  (forallb readable entries = true →
     ∃ l, findMarkdownFiles dir (Some entries) = Some l) ∧
  (∀ l, findMarkdownFiles dir (Some entries) = Some l →
     StronglySorted String.le l ∧ ∀ p, In p l ↔ Listed dir entries p) ∧
  findMarkdownFiles dir (Some (map blind entries))
  = findMarkdownFiles dir (Some entries).
Proof.
  split; [| split].
  - intros Hr. unfold findMarkdownFiles.
    destruct (for_of_total entries Hr dir []) as [res ->]. eauto.
  - unfold findMarkdownFiles. intros l Hl.
    destruct (for_of (visit dir) entries []) as [res|] eqn:Eres; [| discriminate].
    injection Hl as <-. split.
    + apply StronglySorted_merge_sort; apply _.
    + intros p. rewrite In_sort.
      assert (Hall : Forall adds_listed entries)
        by (apply Forall_forall; intros e _; apply visit_listed).
      rewrite (for_of_listed entries Hall _ _ _ Eres p).
      split; [intros [[] | ?]; assumption | now right].
  - unfold findMarkdownFiles.
    assert (Hsub : ∀ a, for_of (visit dir) (map blind entries) a
                        = for_of (visit dir) entries a).
    { induction entries as [|e es IHes]; intros a; simpl; [reflexivity |].
      rewrite visit_blind. destruct (visit dir e a); [apply IHes | reflexivity]. }
    now rewrite Hsub.
Qed.

End StoreClaims.

Lemma findMarkdownFiles_exact_witness :
  Store.findMarkdownFiles (H := plain_host) "."
    (Some [Store.DFile "b.markdown"; Store.DFile "c.txt";
           Store.DDir "node_modules" (Some [Store.DFile "x.md"]);
           Store.DDir "docs" (Some [Store.DFile "a.md"]); Store.DFile "a.md"])
  = Some ["./a.md"; "./b.markdown"; "./docs/a.md"] ∧
  StronglySorted String.le ["./a.md"; "./b.markdown"; "./docs/a.md"].
Proof.
  destruct (findMarkdownFiles_exact (H := plain_host) "."
    [Store.DFile "b.markdown"; Store.DFile "c.txt";
     Store.DDir "node_modules" (Some [Store.DFile "x.md"]);
     Store.DDir "docs" (Some [Store.DFile "a.md"]); Store.DFile "a.md"])
    as (_ & Hex & _).
  destruct (Hex _ eq_refl) as [Hs _].
  split; [reflexivity | exact Hs].
Defined.

(** ** The search and the selector *)

(** Decides the tests on closed strings that are left in the goal. *)
Ltac eval_closed :=
  repeat match goal with
    | |- context [String.eqb ?a ?b] =>
        let v := eval vm_compute in (String.eqb a b) in
        lazymatch v with true => idtac | false => idtac end;
        change (String.eqb a b) with v
    | |- context [String.leb ?a ?b] =>
        let v := eval vm_compute in (String.leb a b) in
        lazymatch v with true => idtac | false => idtac end;
        change (String.leb a b) with v
    | |- context [Nat.eqb (String.length ?a) ?n] =>
        let v := eval vm_compute in (Nat.eqb (String.length a) n) in
        lazymatch v with true => idtac | false => idtac end;
        change (Nat.eqb (String.length a) n) with v
    end.

(** Runs the combinators of the process on a machine given by its fields. *)
Ltac exec :=
  exec_unfold;
  repeat (progress (eval_closed; cbv beta iota zeta delta [andb orb negb]))
with exec_unfold :=
  cbv [Browser.inputHandler Browser.search_keys Browser.browse_keys
       Browser.startSelector Browser.renderList Browser.clear_screen
       Browser.when Browser.run Browser.step Browser.steps fold_left
       Viewer.showWithLess Viewer.on_less_close
       mbind mret Process.M_bind Process.M_ret Process.bind Process.ret
       Process.get Process.throw Process.process_exit Process.emit
       Process.set_sel Process.set_stdin Process.set_world Process.set_pending
       Process.readFileSync Process.writeFileSync Process.unlinkSync
       Process.setRawMode Process.stdin_pause Process.stdin_resume
       Process.removeAllListeners Process.on_data
       Process.set_selected Process.set_searchMode Process.set_searchQuery
       Process.set_searchResults
       Process.sel Process.stdin Process.world Process.pending Process.trace
       Process.files Process.selected Process.searchMode Process.searchQuery
       Process.searchResults Process.rawMode Process.paused Process.listening
       Process.fs_files Process.fs_locked Process.clock Process.environ
       Process.tmpFile Process.hasOnClose
       Browser.machine Browser.status].

(** Splits on the innermost test left in the goal. *)
Ltac atomic_test b :=
  lazymatch b with
  | context [if _ then _ else _] => fail
  | context [match _ with _ => _ end] => fail
  | _ => idtac
  end.

Ltac split_tests :=
  repeat match goal with
    | |- context [if ?b then _ else _] => atomic_test b; destruct b eqn:?
    | |- context [match ?x with _ => _ end] => atomic_test x; destruct x eqn:?
    end.

Section SearchClaims.
Import JsString Spec Search Process Browser.
Context `{Host}.

Lemma split_lines_hd s : split_lines s = hd "" (split_lines s) :: tl (split_lines s).
Proof.
  destruct s as [|c s]; [reflexivity |]. simpl.
  destruct (Ascii.eqb c LF); [reflexivity |].
  now destruct (split_lines s).
Qed.

Lemma includes_empty s : includes "" s = true.
Proof. now destruct s. Qed.

Lemma search_empty_query store files acc :
  fold_left (fun results file =>
    match store !! file with
    | None => results
    | Some content =>
        match first_match (toLowerCase "") (split_lines content) 0 with
        | Some (i, l) =>
            results ++ [ {| file := file;
                            basename := path_basename file;
                            relPath := path_relative file;
                            line := i + 1;
                            preview := str_take 80 (trim l) |} ]
        | None => results
        end
    end) files acc
  = acc ++ flat_map (first_line_result store) files.
Proof.
  revert acc. induction files as [|f files IH]; intros acc; simpl.
  - now rewrite app_nil_r.
  - rewrite IH. unfold first_line_result at 2.
    destruct (store !! f) as [content|]; [| reflexivity].
    rewrite (split_lines_hd content). cbn [first_match toLowerCase hd].
    rewrite includes_empty. now rewrite <- app_assoc.
Qed.

Lemma append_empty a b : a +:+ b = "" → b = "".
Proof. destruct a; simpl; [trivial | discriminate]. Qed.

Lemma inputHandler_query_guard key m :
  query_guard m → after query_guard (inputHandler key m).
Proof.
  destruct m as [[fs i mode q rs] [raw pz ls] [wf wl wc we] pd tr].
  unfold query_guard. exec. intros Hm.
  split_tests; cbv [after]; exec; try assumption; try reflexivity.
  all: intros E;
    first [ apply append_empty in E; subst key; discriminate
          | rewrite E in *; discriminate ].
Qed.

Lemma step_query_guard cfg e :
  query_guard (machine cfg) → query_guard (machine (step cfg e)).
Proof.
  intros Hg. destruct cfg as [m st]. destruct st; [| exact Hg ..].
  destruct e as [key | code | w'].
  - unfold step. cbn [status machine].
    destruct (listening (stdin m) && negb (paused (stdin m))); [| exact Hg].
    pose proof (inputHandler_query_guard key m Hg) as Hk.
    unfold run. now destruct (inputHandler key m).
  - destruct m as [[fs i mode q rs] [raw pz ls] [wf wl wc we] pd tr].
    unfold query_guard in *. exec.
    destruct pd as [[tmp k]|]; [| exact Hg].
    split_tests; exec; try assumption; try reflexivity.
  - destruct m as [[fs i mode q rs] [raw pz ls] [wf wl wc we] pd tr].
    exact Hg.
Qed.

Lemma steps_query_guard events : ∀ cfg,
  query_guard (machine cfg) → query_guard (machine (steps cfg events)).
Proof.
  induction events as [|e events IH]; intros cfg Hg; [exact Hg |].
  apply IH, step_query_guard, Hg.
Qed.

(** C1, as stated, fails: every line contains the empty string, so a
    search for the empty query returns one result for each readable file. *)
Lemma searchInFiles_empty_query_finds_files :
  searchInFiles (H := plain_host) {[ "notes.md" := "Project Alpha" ]}
    ["notes.md"] ""
  = [ mkResult "notes.md" "notes.md" "notes.md" 1 "Project Alpha" ].
Proof. reflexivity. Qed.

(** C1, amended: [searchInFiles] applied to the empty query returns one
    result for each readable file, at line 1; the empty result sequence
    for the empty query comes from the selector, which does not call the
    search then: in every state the selector reaches, an empty query goes
    with an empty result list. *)
Theorem empty_query_no_results_in_selector :
  (∀ store files,
     searchInFiles store files "" = flat_map (first_line_result store) files) ∧
  (∀ fs w events,
     let m := machine (steps (showFileSelector fs w) events) in
     searchQuery (sel m) = "" → searchResults (sel m) = []).
Proof.
  split.
  - intros store files. unfold searchInFiles. apply search_empty_query.
  - intros fs w events. apply steps_query_guard.
    destruct w as [wf wl wc we]. unfold query_guard. reflexivity.
Qed.

End SearchClaims.

Lemma empty_query_no_results_in_selector_witness :
  let w := Process.mkWorld {[ "notes.md" := "Project Alpha" ]} ∅ 0 ∅ in
  let m := Browser.machine
             (Browser.steps (H := plain_host)
                (Browser.showFileSelector (H := plain_host) ["notes.md"] w)
                [Browser.Key "/"; Browser.Key "a"; Browser.Key Browser.key_delete]) in
  Process.searchQuery (Process.sel m) = "" ∧
  Process.searchResults (Process.sel m) = [].
Proof.
  split; [reflexivity |].
  apply (proj2 (empty_query_no_results_in_selector (H := plain_host))).
  reflexivity.
Defined.

(** ** The selector: cursor moves *)

Section CursorClaims.
Import JsString Spec Search Process Browser.
Context `{Host}.

Lemma nav_offset_cases searching key off :
  nav_offset searching key = Some off →
  (off = -1 ∧ (key = key_up ∨ searching = false ∧ key = "k")) ∨
  (off = 1 ∧ (key = key_down ∨ searching = false ∧ key = "j")).
Proof.
  unfold nav_offset.
  destruct (String.eqb_spec key key_up) as [-> | _];
    [intros [= <-]; now left; split; [| left] |].
  destruct searching; cbn [negb andb orb].
  - destruct (String.eqb_spec key key_down) as [-> | _]; [| discriminate].
    intros [= <-]. right. split; [reflexivity | now left].
  - destruct (String.eqb_spec key "k") as [-> | _];
      [intros [= <-]; left; split; [reflexivity | now right] |].
    cbn [orb].
    destruct (String.eqb_spec key key_down) as [-> | _];
      [intros [= <-]; right; split; [reflexivity | now left] |].
    destruct (String.eqb_spec key "j") as [-> | _]; [| discriminate].
    intros [= <-]. right. split; [reflexivity | now right].
Qed.

Lemma wrap_up i n :
  0 <= i < n → (if 0 <? i then i - 1 else n - 1) = (i + -1) mod n.
Proof.
  intros Hi. destruct (Z.ltb_spec 0 i).
  - rewrite Z.mod_small by lia. lia.
  - replace (i + -1) with ((n - 1) + (-1) * n) by lia.
    rewrite Z_mod_plus_full, Z.mod_small by lia. reflexivity.
Qed.

Lemma wrap_down i n :
  0 <= i < n → (if i <? n - 1 then i + 1 else 0) = (i + 1) mod n.
Proof.
  intros Hi. destruct (Z.ltb_spec i (n - 1)).
  - rewrite Z.mod_small by lia. reflexivity.
  - replace (i + 1) with (0 + 1 * n) by lia.
    rewrite Z_mod_plus_full, Z.mod_small by lia. reflexivity.
Qed.

(** One up or down key: the cursor moves by one, modulo the length of the
    active list; the screen is repainted; nothing else changes. *)
Lemma nav_step m key off :
  listening (stdin m) = true → paused (stdin m) = false →
  0 <= selected (sel m) < active_length (sel m) →
  nav_offset (searchMode (sel m)) key = Some off →
  step (mkConfig m Running) (Key key)
  = mkConfig
      (mkMachine
         (with_selected (sel m)
            ((selected (sel m) + off) mod active_length (sel m)))
         (stdin m) (world m) (pending m)
         (trace m ++ [ClearScreen] ++ [Repaint]))
      Running.
Proof.
  destruct m as [[fs i mode q rs] [raw pz ls] [wf wl wc we] pd tr].
  unfold active_length, with_selected.
  cbn [sel stdin listening paused selected searchMode
       searchResults files world pending trace searchQuery].
  intros -> -> Hi Hoff.
  apply nav_offset_cases in Hoff as [[-> Hk] | [-> Hk]].
  - destruct Hk as [-> | [-> ->]].
    + destruct mode; exec.
      * destruct rs as [|r rs]; [simpl in Hi; lia |].
        cbn [length Nat.ltb Nat.leb]. rewrite wrap_up by exact Hi.
        now rewrite <- app_assoc.
      * rewrite wrap_up by exact Hi. now rewrite <- app_assoc.
    + exec.
      rewrite wrap_up by exact Hi. now rewrite <- app_assoc.
  - destruct Hk as [-> | [-> ->]].
    + destruct mode; exec.
      * destruct rs as [|r rs]; [simpl in Hi; lia |].
        cbn [length Nat.ltb Nat.leb]. rewrite wrap_down by exact Hi.
        now rewrite <- app_assoc.
      * rewrite wrap_down by exact Hi. now rewrite <- app_assoc.
    + exec.
      rewrite wrap_down by exact Hi. now rewrite <- app_assoc.
Qed.

(** Turns the recorded outcomes of tests into (in)equalities. *)
Ltac tests_to_props :=
  repeat match goal with
    | H : (_ <? _) = true |- _ => apply Z.ltb_lt in H
    | H : (_ <? _) = false |- _ => apply Z.ltb_ge in H
    | H : (_ <? _)%nat = true |- _ => apply Nat.ltb_lt in H
    | H : (_ <? _)%nat = false |- _ => apply Nat.ltb_ge in H
    end.

Lemma inputHandler_cursor_ok key m :
  cursor_ok m → after cursor_ok (inputHandler key m).
Proof.
  destruct m as [[fs i mode q rs] [raw pz ls] [wf wl wc we] pd tr].
  unfold cursor_ok, active_length. exec. intros Hm.
  split_tests; cbv [after]; exec; try assumption;
    intros Hfs; specialize (Hm Hfs);
    try (destruct fs as [|f0 fs]; [contradiction |]);
    cbn [length] in *; tests_to_props; lia.
Qed.

Lemma step_cursor_ok cfg e :
  cursor_ok (machine cfg) → cursor_ok (machine (step cfg e)).
Proof.
  intros Hg. destruct cfg as [m st]. destruct st; [| exact Hg ..].
  destruct e as [key | code | w'].
  - unfold step. cbn [status machine].
    destruct (listening (stdin m) && negb (paused (stdin m))); [| exact Hg].
    pose proof (inputHandler_cursor_ok key m Hg) as Hk.
    unfold run. now destruct (inputHandler key m).
  - destruct m as [[fs i mode q rs] [raw pz ls] [wf wl wc we] pd tr].
    unfold cursor_ok, active_length in *. exec.
    destruct pd as [[tmp k]|]; [| exact Hg].
    split_tests; exec; try assumption; intros _; lia.
  - destruct m as [[fs i mode q rs] [raw pz ls] [wf wl wc we] pd tr].
    exact Hg.
Qed.

Lemma steps_cursor_ok events : ∀ cfg,
  cursor_ok (machine cfg) → cursor_ok (machine (steps cfg events)).
Proof.
  induction events as [|e events IH]; intros cfg Hg; [exact Hg |].
  apply IH, step_cursor_ok, Hg.
Qed.

(** The file list of the selector never changes. *)
Lemma step_files cfg e :
  files (sel (machine (step cfg e))) = files (sel (machine cfg)).
Proof.
  destruct cfg as [[[fs0 i mode q rs] [raw pz ls] [wf wl wc we] pd tr] st].
  destruct st; [| reflexivity ..].
  destruct e as [key | code | w'].
  - unfold step. cbn [status machine stdin listening paused].
    destruct (ls && negb pz); [| reflexivity].
    exec. split_tests; reflexivity.
  - exec. destruct pd as [[tmp k]|]; [| reflexivity].
    split_tests; reflexivity.
  - reflexivity.
Qed.

Lemma steps_files events : ∀ cfg,
  files (sel (machine (steps cfg events))) = files (sel (machine cfg)).
Proof.
  induction events as [|e events IH]; intros cfg; [reflexivity |].
  change (steps cfg (e :: events)) with (steps (step cfg e) events).
  now rewrite IH, step_files.
Qed.

(** In every state a selector opened on a non-empty file list reaches, the
    cursor is in range of the active list whenever that list is not empty. *)
Lemma reachable_cursor_in_range fs w events :
  fs ≠ [] →
  let m := machine (steps (showFileSelector fs w) events) in
  0 < active_length (sel m) → 0 <= selected (sel m) < active_length (sel m).
Proof.
  intros Hfs m Hlen.
  assert (Hm : cursor_ok m).
  { apply steps_cursor_ok. destruct w as [wf wl wc we].
    unfold cursor_ok, showFileSelector, active_length. exec. intros _. lia. }
  assert (E : files (sel (machine (showFileSelector fs w))) = fs)
    by (now destruct w).
  unfold cursor_ok in Hm. subst m. rewrite steps_files, E in Hm.
  specialize (Hm Hfs). lia.
Qed.

Lemma steps_cons cfg e events :
  steps cfg (e :: events) = steps (step cfg e) events.
Proof. reflexivity. Qed.

(** C6: from a cursor in range of a non-empty active list of length [N],
    any sequence of up and down keys leaves the selector running with the
    cursor at (cursor + moves) mod [N], where each up key counts -1 and
    each down key +1; so one up key gives (cursor - 1) mod [N], one down
    key (cursor + 1) mod [N], and the cursor stays in [0, N), in normal
    mode (arrows, [k], [j]) and in search mode (arrows). *)
Theorem cursor_wraps_in_range (m : Machine) (keys : list string) :
  listening (stdin m) = true → paused (stdin m) = false →
  0 <= selected (sel m) < active_length (sel m) →
  Forall (fun key => is_Some (nav_offset (searchMode (sel m)) key)) keys →
  let cfg' := steps (mkConfig m Running) (map Key keys) in
  status cfg' = Running ∧
  sel (machine cfg')
  = with_selected (sel m)
      ((selected (sel m) + total_offset (searchMode (sel m)) keys)
         mod active_length (sel m)) ∧
  stdin (machine cfg') = stdin m ∧
  0 <= selected (sel (machine cfg')) < active_length (sel m).
Proof.
  intros Hl Hp Hi Hkeys. cbv zeta.
  enough (E : status (steps (mkConfig m Running) (map Key keys)) = Running ∧
              sel (machine (steps (mkConfig m Running) (map Key keys)))
              = with_selected (sel m)
                  ((selected (sel m) + total_offset (searchMode (sel m)) keys)
                     mod active_length (sel m)) ∧
              stdin (machine (steps (mkConfig m Running) (map Key keys)))
              = stdin m).
  { destruct E as (E1 & E2 & E3).
    split; [exact E1 |]. split; [exact E2 |]. split; [exact E3 |].
    rewrite E2. unfold with_selected. cbn [selected].
    apply Z.mod_pos_bound. lia. }
  revert m Hl Hp Hi Hkeys.
  induction keys as [|key keys IH]; intros m Hl Hp Hi Hkeys.
  - cbn [map steps fold_left machine status total_offset fold_right].
    rewrite Z.add_0_r, Z.mod_small by exact Hi.
    now destruct m as [[fs i mode q rs] ? ? ? ?].
  - inversion Hkeys as [|? ? [off Hoff] Hrest]; subst.
    cbn [map]. rewrite steps_cons, (nav_step m key off) by assumption.
    set (m1 := mkMachine _ _ _ _ _).
    assert (Hlen : active_length (sel m1) = active_length (sel m))
      by (subst m1; now destruct m as [[fs i mode q rs] ? ? ? ?]).
    assert (Hmode : searchMode (sel m1) = searchMode (sel m))
      by (subst m1; now destruct m as [[fs i mode q rs] ? ? ? ?]).
    destruct (IH m1) as (E1 & E2 & E3).
    + exact Hl.
    + exact Hp.
    + rewrite Hlen. subst m1. unfold with_selected. cbn [sel selected].
      apply Z.mod_pos_bound. lia.
    + now rewrite Hmode.
    + rewrite E1, E2, E3, Hlen, Hmode. repeat split.
      subst m1. unfold with_selected, total_offset.
      cbn [sel selected files searchMode searchQuery searchResults fold_right].
      rewrite Hoff. cbn [default].
      rewrite Zplus_mod_idemp_l, Z.add_assoc. reflexivity.
Qed.

End CursorClaims.

Lemma cursor_wraps_in_range_witness :
  let m := Process.mkMachine
             (Process.mkSelector ["a.md"; "b.md"; "c.md"] 0 false "" [])
             (Process.mkStdin true false true)
             (Process.mkWorld ∅ ∅ 0 ∅) None [] in
  Process.selected
    (Process.sel
       (Browser.machine
          (Browser.steps (H := plain_host) (Browser.mkConfig m Browser.Running)
             (map Browser.Key [Browser.key_up; Browser.key_up; "j"; "j"; "j"]))))
  = 1.
Proof.
  intros m.
  destruct (cursor_wraps_in_range (H := plain_host) m
              [Browser.key_up; Browser.key_up; "j"; "j"; "j"]
              eq_refl eq_refl ltac:(cbn; lia)
              ltac:(repeat constructor; eexists; reflexivity))
    as (_ & Hsel & _).
  exact (f_equal Process.selected Hsel).
Defined.

(** ** The selector: opening a document and coming back *)

Section OpenClaims.
Import JsString Spec Search Process Browser.
Context `{Host}.

Lemma lessArgs_position n tmp :
  Viewer.lessArgs (Some n) tmp
  = Viewer.lessOptions ++ (if 1 <? n then ["+" +:+ show n] else []) ++ [tmp].
Proof.
  unfold Viewer.lessArgs.
  destruct (Z.ltb_spec 1 n) as [Hn | Hn].
  - destruct (Z.eqb_spec n 0); [lia | reflexivity].
  - now rewrite andb_false_r.
Qed.

Lemma index_nonempty {A} (l : list A) i x :
  index l i = Some x → (0 <? length l)%nat = true.
Proof.
  unfold index. destruct (i <? 0); [discriminate |].
  destruct l; [discriminate | reflexivity].
Qed.

Lemma dead_steps m st events :
  st ≠ Running → steps (mkConfig m st) events = mkConfig m st.
Proof.
  intros Hst. induction events as [|e events IH]; [reflexivity |].
  rewrite steps_cons. unfold step. cbn [status].
  destruct st; [contradiction | exact IH ..].
Qed.

(** C7: Enter in search mode on the selected result of a non-empty result
    list, whose file can be read while the transient file can be written:
    [less] is launched on the transient file with the start position
    [+line] exactly when the line of the result is greater than 1; and
    when [less] ends, the transient file still being there and removable,
    the selector runs again in normal mode with the cursor at 0 and the
    query and the results cleared. *)
Theorem open_search_result (m : Machine) (key : string)
    (r : SearchResult) (content : string) :
  is_enter key →
  listening (stdin m) = true → paused (stdin m) = false →
  searchMode (sel m) = true →
  index (searchResults (sel m)) (selected (sel m)) = Some r →
  fs_files (world m) !! file r = Some content →
  tmp_path (world m) ∉ fs_locked (world m) →
  let tmp := tmp_path (world m) in
  let body := Render.artifact (environ (world m)) (relPath r) content in
  let launched := step (mkConfig m Running) (Key key) in
  launched
  = mkConfig
      (mkMachine (sel m) (mkStdin false true false)
         (mkWorld (<[tmp := body]> (fs_files (world m)))
                  (fs_locked (world m)) (clock (world m)) (environ (world m)))
         (Some (mkPending tmp true))
         (trace m ++
            [ ClearScreen; WriteFile tmp body;
              Spawn "less"
                (Viewer.lessOptions ++
                 (if 1 <? line r then ["+" +:+ show (line r)] else []) ++
                 [tmp]) ]))
      Running ∧
  ∀ w' code,
    is_Some (fs_files w' !! tmp) → tmp ∉ fs_locked w' →
    let back := steps launched [Outside w'; LessClosed code] in
    status back = Running ∧
    sel (machine back) = restarted (sel m) ∧
    stdin (machine back) = mkStdin true false true ∧
    pending (machine back) = None ∧
    fs_files (world (machine back)) !! tmp = None.
Proof.
  destruct m as [[fs i mode q rs] [raw pz ls] [wf wl wc we] pd tr].
  unfold tmp_path, restarted.
  cbn [sel stdin world listening paused searchMode searchResults selected
       fs_files fs_locked clock environ trace files].
  intros Hkey -> -> -> Hidx Hread Hlock. cbv zeta.
  assert (E : step
    (mkConfig (mkMachine (mkSelector fs i true q rs) (mkStdin raw false true)
                         (mkWorld wf wl wc we) pd tr) Running) (Key key)
    = mkConfig
        (mkMachine (mkSelector fs i true q rs) (mkStdin false true false)
           (mkWorld
              (<[path_join os_tmpdir ("mdview-" +:+ show wc +:+ ".txt")
                 := Render.artifact we (relPath r) content]> wf) wl wc we)
           (Some (mkPending
                    (path_join os_tmpdir ("mdview-" +:+ show wc +:+ ".txt")) true))
           (tr ++
              [ ClearScreen;
                WriteFile (path_join os_tmpdir ("mdview-" +:+ show wc +:+ ".txt"))
                          (Render.artifact we (relPath r) content);
                Spawn "less"
                  (Viewer.lessOptions ++
                   (if 1 <? line r then ["+" +:+ show (line r)] else []) ++
                   [path_join os_tmpdir ("mdview-" +:+ show wc +:+ ".txt")]) ]))
        Running).
  { rewrite <- lessArgs_position.
    destruct Hkey as [-> | ->]; exec;
      rewrite (index_nonempty _ _ _ Hidx), Hidx, Hread;
      (destruct (decide _) as [Hin | _]; [contradiction |]);
      now rewrite <- !app_assoc. }
  split; [exact E |].
  intros w' code [old Hold] Hlock'. rewrite E.
  destruct w' as [wf' wl' wc' we'].
  cbn [fs_files fs_locked] in Hold, Hlock'.
  exec. rewrite Hold.
  destruct (decide _) as [Hin | _]; [contradiction |].
  repeat split. cbn. apply lookup_delete_eq.
Qed.

(** C10: Enter in search mode while there are no results does nothing at
    all: the configuration, with its mode, cursor, query, results,
    terminal input state and trace of effects, is the same afterwards. *)
Theorem enter_without_results_is_noop (cfg : Config) (key : string) :
  is_enter key →
  searchMode (sel (machine cfg)) = true →
  searchResults (sel (machine cfg)) = [] →
  step cfg (Key key) = cfg.
Proof.
  destruct cfg as [[[fs i mode q rs] [raw pz ls] [wf wl wc we] pd tr] st].
  cbn [machine sel searchMode searchResults]. intros Hkey -> ->.
  destruct st; [| reflexivity ..].
  destruct ls, pz; try reflexivity.
  destruct Hkey as [-> | ->]; exec; reflexivity.
Qed.

(** C9, as stated, fails: a file that can no longer be read when Enter is
    pressed ends the selector with an uncaught exception. *)
Lemma open_unreadable_file_is_fatal :
  let cfg := showFileSelector (H := plain_host) ["gone.md"] (mkWorld ∅ ∅ 0 ∅) in
  status cfg = Running ∧
  status (step (H := plain_host) cfg (Key key_cr)) = Crashed.
Proof. split; reflexivity. Qed.

(** C9, amended: when the file selected in normal mode, or the file of
    the result selected in search mode, cannot be read, Enter throws out
    of the handler after it has left raw mode, paused the input, removed
    the listener and cleared the screen.  Nothing catches the exception:
    the run is over, no viewer is launched, and no later event changes
    anything. *)
Theorem open_unreadable_file_crashes (m : Machine) (key f : string) :
  is_enter key →
  listening (stdin m) = true → paused (stdin m) = false →
  (searchMode (sel m) = false ∧
     index (files (sel m)) (selected (sel m)) = Some f) ∨
  (searchMode (sel m) = true ∧
     ∃ r, index (searchResults (sel m)) (selected (sel m)) = Some r ∧
          file r = f) →
  fs_files (world m) !! f = None →
  let cfg' := step (mkConfig m Running) (Key key) in
  cfg' = mkConfig
           (mkMachine (sel m) (mkStdin false true false) (world m)
                      (pending m) (trace m ++ [ClearScreen]))
           Crashed ∧
  ∀ events, steps cfg' events = cfg'.
Proof.
  destruct m as [[fs i mode q rs] [raw pz ls] [wf wl wc we] pd tr].
  cbn [sel stdin world listening paused searchMode searchResults selected
       fs_files trace files pending].
  intros Hkey -> -> Hsel Hread. cbv zeta.
  assert (E : step
    (mkConfig (mkMachine (mkSelector fs i mode q rs) (mkStdin raw false true)
                         (mkWorld wf wl wc we) pd tr) Running) (Key key)
    = mkConfig
        (mkMachine (mkSelector fs i mode q rs) (mkStdin false true false)
                   (mkWorld wf wl wc we) pd (tr ++ [ClearScreen]))
        Crashed).
  { destruct Hsel as [[-> Hidx] | [-> (r & Hidx & <-)]];
      destruct Hkey as [-> | ->]; exec;
      rewrite ?(index_nonempty _ _ _ Hidx), Hidx, Hread; reflexivity. }
  split; [exact E |]. intros events. rewrite E. now apply dead_steps.
Qed.

(** C8, as stated, fails: when the transient file cannot be removed, the
    callback stops at the deletion; the selector is not started again and
    the file stays.  The same happens when the file has disappeared while
    [less] was running. *)
Lemma failed_unlink_aborts_close :
  let w := mkWorld {[ "notes.md" := "Project Alpha" ]} ∅ 0 ∅ in
  let viewing :=
    steps (H := plain_host) (showFileSelector (H := plain_host) ["notes.md"] w)
          [Key key_cr] in
  let tmp := "/tmp/mdview-0.txt" in
  let locked := mkWorld (fs_files (world (machine viewing))) {[ tmp ]} 0 ∅ in
  let closed := steps (H := plain_host) viewing [Outside locked; LessClosed 0] in
  let closed' := steps (H := plain_host) viewing [Outside w; LessClosed 0] in
  pending (machine viewing) = Some (mkPending tmp true) ∧
  status closed = Crashed ∧
  listening (stdin (machine closed)) = false ∧
  is_Some (fs_files (world (machine closed)) !! tmp) ∧
  status closed' = Crashed ∧
  listening (stdin (machine closed')) = false.
Proof. repeat split. vm_compute. eauto. Qed.

(** C8, amended: when [less] ends, whatever its exit code, the callback
    first tries to delete the transient file.  If the file is there and
    can be removed, it is gone afterwards, and then the selector is
    started again when a continuation was given, or else the process
    exits with code 0.  If the deletion throws, nothing catches it: the
    run is over, the continuation does not run and there is no exit
    with code 0. *)
Theorem close_deletes_then_continues (m : Machine) (p : Pending) (code : Z) :
  pending m = Some p →
  let cfg' := step (mkConfig m Running) (LessClosed code) in
  (is_Some (fs_files (world m) !! tmpFile p) →
   tmpFile p ∉ fs_locked (world m) →
     fs_files (world (machine cfg')) !! tmpFile p = None ∧
     if hasOnClose p
     then status cfg' = Running ∧
          sel (machine cfg') = restarted (sel m) ∧
          stdin (machine cfg') = mkStdin true false true
     else status cfg' = Exited 0) ∧
  (fs_files (world m) !! tmpFile p = None ∨ tmpFile p ∈ fs_locked (world m) →
     cfg' = mkConfig (mkMachine (sel m) (stdin m) (world m) None (trace m))
                     Crashed).
Proof.
  destruct m as [[fs i mode q rs] [raw pz ls] [wf wl wc we] pd tr].
  destruct p as [tmp k]. unfold restarted.
  cbn [pending sel stdin world fs_files fs_locked tmpFile hasOnClose trace files].
  intros ->. cbv zeta. split.
  - intros [old Hold] Hlock. exec. rewrite Hold.
    destruct (decide _) as [Hin | _]; [contradiction |].
    destruct k; exec; (split; [cbn; apply lookup_delete_eq | repeat split]).
  - intros [Hgone | Hlock]; exec.
    + now rewrite Hgone.
    + destruct (wf !! tmp); [| reflexivity].
      destruct (decide _) as [_ | Hout]; [reflexivity | contradiction].
Qed.

End OpenClaims.

Lemma open_search_result_witness :
  let r := Search.mkResult "notes.md" "notes.md" "notes.md" 2 "Project Alpha" in
  let w := Process.mkWorld
             {[ "notes.md" := "Title" +:+ JsString.nl +:+ "Project Alpha" ]} ∅ 0 ∅ in
  let m := Process.mkMachine (Process.mkSelector ["notes.md"] 0 true "alpha" [r])
             (Process.mkStdin true false true) w None [] in
  let launched :=
    Browser.step (H := plain_host) (Browser.mkConfig m Browser.Running)
      (Browser.Key Browser.key_cr) in
  Search.searchInFiles (H := plain_host) (Process.fs_files w) ["notes.md"] "alpha"
  = [r] ∧
  last (Process.trace (Browser.machine launched))
  = Some (Process.Spawn "less"
            (Viewer.lessOptions ++ ["+2"; "/tmp/mdview-0.txt"])) ∧
  Process.sel
    (Browser.machine
       (Browser.steps (H := plain_host) launched
          [Browser.Outside (Process.world (Browser.machine launched));
           Browser.LessClosed 0]))
  = Process.mkSelector ["notes.md"] 0 false "" [].
Proof.
  intros r w m launched.
  destruct (open_search_result (H := plain_host) m Browser.key_cr r
              ("Title" +:+ JsString.nl +:+ "Project Alpha")
              (or_introl eq_refl) eq_refl eq_refl eq_refl eq_refl eq_refl
              ltac:(apply not_elem_of_empty))
    as [Hlaunch Hback].
  split; [reflexivity |]. split.
  - subst launched. rewrite Hlaunch. reflexivity.
  - apply (Hback (Process.world (Browser.machine launched)) 0);
      [eexists; reflexivity | apply not_elem_of_empty].
Defined.

Lemma enter_without_results_is_noop_witness :
  let cfg :=
    Browser.steps (H := plain_host)
      (Browser.showFileSelector (H := plain_host) ["notes.md"]
         (Process.mkWorld {[ "notes.md" := "Project Alpha" ]} ∅ 0 ∅))
      [Browser.Key "/"; Browser.Key "z"] in
  Process.searchMode (Process.sel (Browser.machine cfg)) = true ∧
  Process.searchResults (Process.sel (Browser.machine cfg)) = [] ∧
  Browser.step (H := plain_host) cfg (Browser.Key Browser.key_cr) = cfg.
Proof.
  intros cfg. split; [reflexivity |]. split; [reflexivity |].
  apply (enter_without_results_is_noop (H := plain_host) cfg Browser.key_cr);
    [left; reflexivity | reflexivity | reflexivity].
Defined.

Lemma open_unreadable_file_crashes_witness :
  let m := Process.mkMachine (Process.mkSelector ["gone.md"] 0 false "" [])
             (Process.mkStdin true false true) (Process.mkWorld ∅ ∅ 0 ∅) None [] in
  Browser.status
    (Browser.step (H := plain_host) (Browser.mkConfig m Browser.Running)
       (Browser.Key Browser.key_lf))
  = Browser.Crashed.
Proof.
  intros m.
  destruct (open_unreadable_file_crashes (H := plain_host) m Browser.key_lf "gone.md"
              (or_intror eq_refl) eq_refl eq_refl
              (or_introl (conj eq_refl eq_refl)) eq_refl)
    as [Hcrash _].
  exact (f_equal Browser.status Hcrash).
Defined.

Lemma close_deletes_then_continues_witness :
  let p := Process.mkPending "/tmp/mdview-0.txt" true in
  let m := Process.mkMachine (Process.mkSelector ["notes.md"] 0 true "alpha" [])
             (Process.mkStdin false true false)
             (Process.mkWorld {[ "/tmp/mdview-0.txt" := "text" ]} ∅ 7 ∅)
             (Some p) [] in
  let cfg' :=
    Browser.step (H := plain_host) (Browser.mkConfig m Browser.Running)
      (Browser.LessClosed 1) in
  Process.fs_files (Process.world (Browser.machine cfg')) !! "/tmp/mdview-0.txt"
  = None ∧
  Browser.status cfg' = Browser.Running.
Proof.
  intros p m cfg'.
  destruct (close_deletes_then_continues (H := plain_host) m p 1 eq_refl)
    as [Hok _].
  destruct Hok as (Hgone & Hrun & _);
    [eexists; reflexivity | apply not_elem_of_empty |].
  split; [exact Hgone | exact Hrun].
Defined.

Lemma colour_level_forced_witness :
  JsString.has_char JsString.ESC
    (Render.render_post 3 ("see " +:+ "**" +:+ "this" +:+ "**" +:+ " now")) = true.
Proof.
  destruct (colour_level_forced (H := plain_host) {[ "NO_COLOR" := "1" ]} "" "")
    as (_ & Hspans).
  apply (Hspans "see " (Spec.mkSegment Spec.Bold "this" " now") []);
    [reflexivity |].
  repeat split; (discriminate || (left; reflexivity)).
Defined.


(** * Further properties of the code *)

(** ** The search *)

Section SearchFacts.
Import JsString Spec Notions Search.
Context `{Host}.

Lemma searchInFiles_flat_map store files query :
  searchInFiles store files query = flat_map (search_one store query) files.
Proof.
  unfold searchInFiles.
  enough (E : ∀ acc,
    fold_left (fun results file =>
      match store !! file with
      | None => results
      | Some content =>
          match first_match (toLowerCase query) (split_lines content) 0 with
          | Some (i, l) =>
              results ++ [ {| file := file; basename := path_basename file;
                              relPath := path_relative file; line := i + 1;
                              preview := str_take 80 (trim l) |} ]
          | None => results
          end
      end) files acc
    = acc ++ flat_map (search_one store query) files) by apply (E []).
  induction files as [|f files IH]; intros acc; simpl.
  - now rewrite app_nil_r.
  - rewrite IH. unfold search_one at 2.
    destruct (store !! f) as [content|]; [| reflexivity].
    destruct (first_match _ _ 0) as [[i l]|]; [| reflexivity].
    now rewrite <- app_assoc.
Qed.

(** What the inner loop returns: the first line that contains the query,
    with its index counted from [i]. *)
Lemma first_match_spec lq lines : ∀ i,
  match first_match lq lines i with
  | Some (j, l) =>
      ∃ k : nat, j = i + Z.of_nat k ∧ lines !! k = Some l ∧
        includes lq (toLowerCase l) = true ∧
        ∀ (k' : nat) l', (k' < k)%nat → lines !! k' = Some l' →
                 includes lq (toLowerCase l') = false
  | None => ∀ l, In l lines → includes lq (toLowerCase l) = false
  end.
Proof.
  induction lines as [|l0 lines IH]; intros i; simpl.
  - intros l [].
  - destruct (includes lq (toLowerCase l0)) eqn:E0.
    + exists 0%nat. repeat split; [lia | exact E0 |]. intros k' l' Hk. lia.
    + specialize (IH (i + 1)). destruct (first_match lq lines (i + 1)) as [[j l]|].
      * destruct IH as (k & -> & Hk & Hin & Hbefore).
        exists (S k). repeat split; [lia | exact Hk | exact Hin |].
        intros [|k'] l' Hlt Hl'; simpl in Hl'.
        -- now injection Hl' as <-.
        -- apply (Hbefore k'); [lia | exact Hl'].
      * intros l [<- | Hl]; [exact E0 | now apply IH].
Qed.

Lemma str_take_length n s : (String.length (str_take n s) <= n)%nat.
Proof.
  revert s. induction n as [|n IH]; intros [|c s]; simpl; try lia.
  specialize (IH s). lia.
Qed.

Lemma existsb_line_matches query lines :
  existsb (line_matches query) lines
  = match first_match (toLowerCase query) lines 0 with
    | Some _ => true
    | None => false
    end.
Proof.
  generalize 0. induction lines as [|l lines IH]; intros i; simpl; [reflexivity |].
  unfold line_matches at 1.
  destruct (includes (toLowerCase query) (toLowerCase l)); [reflexivity |].
  apply IH.
Qed.

(** X1: The results name, in the order of the file list and once for each
    place a file has in it, exactly the files that can be read and hold a
    line containing the query: one result at most for a file, and none for
    a file that cannot be read. *)
Theorem search_results_follow_files store files query :
  map file (searchInFiles store files query)
  = List.filter (file_matches store query) files.
Proof.
  rewrite searchInFiles_flat_map.
  induction files as [|f files IH]; [reflexivity |].
  cbn [flat_map List.filter]. rewrite map_app, IH.
  unfold search_one, file_matches at 2.
  destruct (store !! f) as [content|]; [| reflexivity].
  rewrite existsb_line_matches.
  now destruct (first_match _ _ 0) as [[i l]|].
Qed.

(** X2: Every result is the first match of its file: the file is listed and
    readable, the line number (from 1) is that of a line containing the
    query without regard to case, no earlier line contains it, and the
    preview is that line, trimmed and cut to 80 units. *)
Theorem search_result_is_first_match store files query r :
  In r (searchInFiles store files query) →
  ∃ content l (k : nat),
    In (file r) files ∧ store !! file r = Some content ∧
    split_lines content !! k = Some l ∧ line r = Z.of_nat k + 1 ∧
    line_matches query l = true ∧
    (∀ (k' : nat) l', (k' < k)%nat → split_lines content !! k' = Some l' →
                      line_matches query l' = false) ∧
    preview r = str_take 80 (trim l) ∧
    (String.length (preview r) <= 80)%nat ∧
    basename r = path_basename (file r) ∧ relPath r = path_relative (file r).
Proof.
  rewrite searchInFiles_flat_map, in_flat_map.
  intros (f & Hf & Hr). unfold search_one in Hr.
  destruct (store !! f) as [content|] eqn:Ef; [| destruct Hr].
  pose proof (first_match_spec (toLowerCase query) (split_lines content) 0) as Hfm.
  destruct (first_match _ _ 0) as [[i l]|]; [| destruct Hr].
  destruct Hr as [<- | []]. destruct Hfm as (k & -> & Hk & Hin & Hbefore).
  exists content, l, k. cbn [file line preview basename relPath].
  repeat split; auto using str_take_length.
Qed.

Lemma startsWith_lower p s :
  startsWith p s = true → startsWith (toLowerCase p) (toLowerCase s) = true.
Proof.
  revert s. induction p as [|a p IH]; intros [|b s]; simpl; try easy.
  intros [Hab Hps]%andb_true_iff. apply Ascii.eqb_eq in Hab as ->.
  now rewrite Ascii.eqb_refl, IH.
Qed.

Lemma includes_lower p s :
  includes p s = true → includes (toLowerCase p) (toLowerCase s) = true.
Proof.
  induction s as [|b s IH]; simpl.
  - rewrite !orb_false_r. apply (startsWith_lower p "").
  - intros [Hs | Hi]%orb_true_iff.
    + apply (startsWith_lower p (String b s)) in Hs. simpl in Hs.
      now rewrite Hs.
    + rewrite (IH Hi). apply orb_true_r.
Qed.

(** X3: On ASCII text the search does not regard case: a readable listed
    file with a line of ASCII units that contains the query in any
    spelling of upper and lower case yields a result, at that line or
    before it.  The line is taken in ASCII, where [toLowerCase] maps unit
    by unit; beyond it the mapping depends on the place of a letter in its
    word and the property is not stated. *)
Theorem search_finds_any_case store files query f content (k : nat) l variant :
  In f files → store !! f = Some content →
  split_lines content !! k = Some l → ascii_text l = true →
  toLowerCase variant = toLowerCase query → includes variant l = true →
  ∃ r, In r (searchInFiles store files query) ∧ file r = f ∧
       1 <= line r <= Z.of_nat k + 1.
Proof.
  intros Hf Hc Hk _ Hvar Hin.
  apply includes_lower in Hin. rewrite Hvar in Hin.
  rewrite searchInFiles_flat_map.
  pose proof (first_match_spec (toLowerCase query) (split_lines content) 0) as Hfm.
  destruct (first_match (toLowerCase query) (split_lines content) 0)
    as [[i l0]|] eqn:Efm.
  - destruct Hfm as (k0 & -> & Hk0 & Hin0 & Hbefore).
    exists (mkResult f (path_basename f) (path_relative f) (0 + Z.of_nat k0 + 1)
              (str_take 80 (trim l0))).
    split; [| split; [reflexivity |]].
    + apply in_flat_map. exists f. split; [exact Hf |].
      unfold search_one. rewrite Hc, Efm. now left.
    + cbn [line]. destruct (le_lt_dec k0 k) as [Hle | Hlt]; [lia |].
      rewrite (Hbefore k l Hlt Hk) in Hin. discriminate.
  - rewrite (Hfm l) in Hin; [discriminate |].
    apply list_elem_of_In, list_elem_of_lookup. eauto.
Qed.

(** X4: The search goes file by file: the results for two lists put together
    are the results for the first followed by those for the second; files
    that cannot be read can be left out of the list; and the results depend
    on the content of the listed files only. *)
Theorem search_file_by_file store files files' query :
  searchInFiles store (files ++ files') query
  = searchInFiles store files query ++ searchInFiles store files' query ∧
  searchInFiles store files query
  = searchInFiles store (List.filter (can_read store) files) query ∧
  ∀ store',
    (∀ f, In f files → store' !! f = store !! f) →
    searchInFiles store' files query = searchInFiles store files query.
Proof.
  rewrite !searchInFiles_flat_map. split; [apply flat_map_app |]. split.
  - induction files as [|f fs IH]; [reflexivity |].
    cbn [flat_map List.filter]. unfold can_read at 1, search_one at 1.
    destruct (store !! f) as [content|] eqn:Ef.
    + cbn [flat_map]. unfold search_one at 2. rewrite Ef. now rewrite <- IH.
    + exact IH.
  - intros store' Hsame. rewrite searchInFiles_flat_map.
    induction files as [|f fs IH]; [reflexivity |].
    cbn [flat_map]. rewrite IH by (intros g Hg; apply Hsame; now right).
    unfold search_one. now rewrite (Hsame f) by now left.
Qed.

End SearchFacts.

Lemma search_result_is_first_match_witness :
  ∃ content l (k : nat),
    ({[ "n.md" := "Title" +:+ JsString.nl +:+ "  Project Alpha  " ]} : gmap string string)
      !! "n.md" = Some content ∧
    JsString.split_lines content !! k = Some l ∧ k = 1%nat ∧
    Notions.line_matches "ALPHA" l = true.
Proof.
  assert (Hin : In (Search.mkResult "n.md" "n.md" "n.md" 2 "Project Alpha")
                  (Search.searchInFiles (H := plain_host)
                     {[ "n.md" := "Title" +:+ JsString.nl +:+ "  Project Alpha  " ]}
                     ["n.md"] "ALPHA"))
    by (vm_compute; left; reflexivity).
  destruct (search_result_is_first_match (H := plain_host) _ _ _ _ Hin)
    as (content & l & k & _ & Hc & Hk & Hline & Hm & _).
  exists content, l, k. repeat split; try assumption.
  cbn in Hline. lia.
Defined.

Lemma search_finds_any_case_witness :
  ∃ r, In r (Search.searchInFiles (H := plain_host)
               {[ "n.md" := "Hello World" ]} ["n.md"] "hello") ∧
       Search.file r = "n.md" ∧ 1 <= Search.line r <= 1.
Proof.
  apply (search_finds_any_case (H := plain_host) {[ "n.md" := "Hello World" ]}
           ["n.md"] "hello" "n.md" "Hello World" 0 "Hello World" "Hello");
    [left; reflexivity | reflexivity | reflexivity | reflexivity | reflexivity
    | reflexivity].
Defined.

Lemma search_file_by_file_witness :
  Search.searchInFiles (H := plain_host) ({[ "n.md" := "Hello" ]} ∪ {[ "tmp" := "x" ]})
    ["n.md"] "hello"
  = Search.searchInFiles (H := plain_host) {[ "n.md" := "Hello" ]} ["n.md"] "hello".
Proof.
  destruct (search_file_by_file (H := plain_host) {[ "n.md" := "Hello" ]}
              ["n.md"] [] "hello") as (_ & _ & Hlocal).
  apply Hlocal. intros f [<- | []]. reflexivity.
Defined.

(** ** The renderer: lines and margin *)

Section LineFacts.
Import JsString Spec Render.

Lemma join_lines_cons2 l l' ls :
  join_lines (l :: l' :: ls) = l +:+ nl +:+ join_lines (l' :: ls).
Proof. reflexivity. Qed.

Lemma join_split s : join_lines (split_lines s) = s.
Proof.
  induction s as [|c s IH]; [reflexivity |].
  cbn [split_lines]. destruct (split_lines_cons s) as (l & ls & El).
  rewrite El in *. destruct (Ascii.eqb c LF) eqn:Ec.
  - apply Ascii.eqb_eq in Ec as ->. rewrite join_lines_cons2, IH. reflexivity.
  - destruct ls as [|l' ls].
    + unfold join_lines in *. cbn [String.concat] in *. now rewrite IH.
    + rewrite join_lines_cons2 in *. cbn [String.append]. now rewrite IH.
Qed.

Lemma split_lines_plain l :
  has_char LF l = false → split_lines l = [l].
Proof.
  induction l as [|c l IH]; [reflexivity |]. simpl.
  intros [Hc Hl]%orb_false_elim. now rewrite Hc, IH.
Qed.

Lemma split_lines_app_nl l t :
  has_char LF l = false → split_lines (l +:+ String LF t) = l :: split_lines t.
Proof.
  induction l as [|c l IH]; [reflexivity |]. simpl.
  intros [Hc Hl]%orb_false_elim. now rewrite Hc, IH.
Qed.

Lemma split_join ls :
  ls ≠ [] → Forall (fun l => has_char LF l = false) ls →
  split_lines (join_lines ls) = ls.
Proof.
  intros Hne Hall. induction Hall as [|l ls Hl Hls IH]; [contradiction |].
  destruct ls as [|l' ls].
  - now apply split_lines_plain.
  - rewrite join_lines_cons2. change (nl +:+ ?t) with (String LF t).
    rewrite split_lines_app_nl by exact Hl. now rewrite IH.
Qed.

Lemma split_lines_no_nl s :
  Forall (fun l => has_char LF l = false) (split_lines s).
Proof.
  induction s as [|c s IH]; [now repeat constructor |].
  simpl. destruct (Ascii.eqb c LF) eqn:Ec; [now constructor |].
  destruct (split_lines s) as [|l ls]; [now repeat constructor; simpl; rewrite Ec |].
  inversion IH; subst. constructor; [| assumption]. simpl. now rewrite Ec.
Qed.

Lemma split_pad_lines r :
  split_lines (pad_lines r) = map (String.append "  ") (split_lines r).
Proof.
  unfold pad_lines. apply split_join.
  - destruct (split_lines_cons r) as (l & ls & ->). discriminate.
  - induction (split_lines_no_nl r) as [|l ls Hl _ IH]; constructor; [| exact IH].
    simpl. exact Hl.
Qed.

(** X5: Collapsing line feeds twice is the same as collapsing them once. *)
Theorem collapse_newlines_idempotent s :
  collapse_newlines (collapse_newlines s) = collapse_newlines s.
Proof. apply collapse_id, collapse_no_nl3. Qed.

(** X6: Splitting a text at its line feeds and joining the lines again gives
    the text back.  The margin is added line by line: the lines of the
    padded text are the lines of the text, each after two spaces, so there
    are as many of them, and cutting two units off each gives the text
    back. *)
Theorem pad_lines_line_by_line r :
  join_lines (split_lines r) = r ∧
  split_lines (pad_lines r) = map (String.append "  ") (split_lines r) ∧
  length (split_lines (pad_lines r)) = length (split_lines r) ∧
  join_lines (map (str_drop 2) (split_lines (pad_lines r))) = r.
Proof.
  split; [apply join_split |]. split; [apply split_pad_lines |].
  rewrite split_pad_lines. split; [apply length_map |].
  rewrite map_map. rewrite <- (join_split r) at 2. f_equal.
  rewrite <- (map_id (split_lines r)) at 2.
  apply map_ext_in. intros l _. reflexivity.
Qed.

(** X7: Whatever the converted text and the colour level, every line of what
    [render] returns starts with the margin of two spaces; the output has
    no empty line. *)
Theorem render_post_margin level r :
  Forall (fun l => startsWith "  " l = true) (split_lines (render_post level r)) ∧
  ¬ In "" (split_lines (render_post level r)).
Proof.
  unfold render_post. rewrite split_pad_lines.
  set (ls := split_lines _). clearbody ls. split.
  - induction ls as [|l ls IH]; constructor; [reflexivity | exact IH].
  - induction ls as [|l ls IH]; [intros [] |].
    intros [E | Hin]; [discriminate | auto].
Qed.

(** X8: A converted text without asterisk and backtick goes through the three
    emphasis passes unchanged, at every colour level: [render] only
    collapses its line feeds and adds the margin, and adds the margin only
    when no three line feeds follow one another. *)
Theorem render_post_plain_text level r :
  has_marker r = false →
  render_post level r = pad_lines (collapse_newlines r) ∧
  (includes nl3 r = false → render_post level r = pad_lines r).
Proof.
  intros Hr.
  assert (E : render_post level r = pad_lines (collapse_newlines r))
    by exact (render_post_styled level r [] Hr I).
  split; [exact E |]. intros Hnl. now rewrite E, collapse_id.
Qed.

End LineFacts.

Lemma render_post_plain_text_witness :
  Render.render_post 3 ("a" +:+ Spec.rep JsString.LF 4 +:+ "b")
  = "  a" +:+ JsString.nl +:+ "  " +:+ JsString.nl +:+ "  b".
Proof.
  destruct (render_post_plain_text 3 ("a" +:+ Spec.rep JsString.LF 4 +:+ "b") eq_refl)
    as [E _].
  rewrite E. reflexivity.
Defined.

(** ** The viewer hand-off and the keys of the selector *)

Section SessionFacts.
Import JsString Spec Notions Search Process Browser.
Context `{Host}.

(** X9: [showWithLess] either hands over, or fails before anything is started.
    When the transient file can be written, it holds the header and the
    rendered text afterwards, no other file is touched, [less] is spawned
    after the file is written, and the close callback is left pending.
    When it cannot be written, the call throws: nothing is spawned and
    nothing changes. *)
Theorem showWithLess_hands_over_or_fails (content name : string) (k : bool)
    (startLine : option Z) (m : Machine) :
  let tmp := tmp_path (world m) in
  let body := Render.artifact (environ (world m)) name content in
  (tmp ∉ fs_locked (world m) →
     ∃ m', Viewer.showWithLess content name k startLine m = Return tt m' ∧
           fs_files (world m') !! tmp = Some body ∧
           (∀ p, p ≠ tmp → fs_files (world m') !! p = fs_files (world m) !! p) ∧
           pending m' = Some (mkPending tmp k) ∧
           trace m' = trace m ++ [WriteFile tmp body;
                                  Spawn "less" (Viewer.lessArgs startLine tmp)] ∧
           sel m' = sel m ∧ stdin m' = stdin m) ∧
  (tmp ∈ fs_locked (world m) →
     Viewer.showWithLess content name k startLine m = Throw m).
Proof.
  destruct m as [[fs i mode q rs] [raw pz ls] [wf wl wc we] pd tr].
  unfold tmp_path. cbn [world fs_locked clock environ]. cbv zeta. split; intros Hl.
  - eexists. exec. destruct (decide _) as [Hin | _]; [contradiction |].
    split; [reflexivity |]. cbn [world fs_files pending trace sel stdin].
    split; [apply lookup_insert_eq |]. split.
    + intros p Hp. now apply lookup_insert_ne.
    + now rewrite <- app_assoc.
  - exec. destruct (decide _) as [_ | Hout]; [reflexivity | contradiction].
Qed.

(** X10: Enter in normal mode on a listed file that can be read, the transient
    file being writable: [less] is started on the transient file without a
    start position.  When it ends, the file still being there and
    removable, the selector runs again in normal mode with the cursor back
    at 0 whatever it was, the transient file is gone and no other file of
    the world has changed. *)
Theorem open_file_and_return (m : Machine) (key f content : string) :
  is_enter key →
  listening (stdin m) = true → paused (stdin m) = false →
  searchMode (sel m) = false →
  index (files (sel m)) (selected (sel m)) = Some f →
  fs_files (world m) !! f = Some content →
  tmp_path (world m) ∉ fs_locked (world m) →
  let tmp := tmp_path (world m) in
  let body := Render.artifact (environ (world m)) (path_relative f) content in
  let launched := step (mkConfig m Running) (Key key) in
  status launched = Running ∧
  trace (machine launched)
  = trace m ++ [ClearScreen; WriteFile tmp body;
                Spawn "less" (Viewer.lessOptions ++ [tmp])] ∧
  pending (machine launched) = Some (mkPending tmp true) ∧
  ∀ w' code,
    is_Some (fs_files w' !! tmp) → tmp ∉ fs_locked w' →
    let back := steps launched [Outside w'; LessClosed code] in
    status back = Running ∧
    sel (machine back) = restarted (sel m) ∧
    stdin (machine back) = mkStdin true false true ∧
    pending (machine back) = None ∧
    fs_files (world (machine back)) !! tmp = None ∧
    ∀ p, p ≠ tmp → fs_files (world (machine back)) !! p = fs_files w' !! p.
Proof.
  destruct m as [[fs i mode q rs] [raw pz ls] [wf wl wc we] pd tr].
  unfold tmp_path, restarted.
  cbn [sel stdin world listening paused searchMode selected
       fs_files fs_locked clock environ trace files].
  intros Hkey -> -> -> Hidx Hread Hlock. cbv zeta.
  assert (E : step
    (mkConfig (mkMachine (mkSelector fs i false q rs) (mkStdin raw false true)
                         (mkWorld wf wl wc we) pd tr) Running) (Key key)
    = mkConfig
        (mkMachine (mkSelector fs i false q rs) (mkStdin false true false)
           (mkWorld
              (<[path_join os_tmpdir ("mdview-" +:+ show wc +:+ ".txt")
                 := Render.artifact we (path_relative f) content]> wf) wl wc we)
           (Some (mkPending
                    (path_join os_tmpdir ("mdview-" +:+ show wc +:+ ".txt")) true))
           (tr ++
              [ ClearScreen;
                WriteFile (path_join os_tmpdir ("mdview-" +:+ show wc +:+ ".txt"))
                          (Render.artifact we (path_relative f) content);
                Spawn "less"
                  (Viewer.lessOptions ++
                   [path_join os_tmpdir ("mdview-" +:+ show wc +:+ ".txt")]) ]))
        Running).
  { destruct Hkey as [-> | ->]; exec; rewrite Hidx, Hread;
      (destruct (decide _) as [Hin | _]; [contradiction |]);
      now rewrite <- !app_assoc. }
  rewrite E. cbn [status machine trace pending].
  split; [reflexivity |]. split; [reflexivity |]. split; [reflexivity |].
  intros [wf' wl' wc' we'] code [old Hold] Hlock'.
  cbn [fs_files fs_locked] in Hold, Hlock'.
  repeat split; exec; rewrite Hold;
    (destruct (decide _) as [Hin | _]; [contradiction |]); try reflexivity.
  - cbn. apply lookup_delete_eq.
  - cbn. intros p Hp. now apply lookup_delete_ne.
Qed.

(** X11: A document opened on its own (a file argument, or standard input) is a
    one-shot view: while [less] runs no key reaches the program, and when
    [less] ends, whatever its exit code, the transient file is removed and
    the process exits with code 0; the selector is never started. *)
Theorem single_view_ends_the_process (content name : string) (w : World) :
  tmp_path w ∉ fs_locked w →
  let tmp := tmp_path w in
  let viewing := showSingle content name w in
  status viewing = Running ∧
  pending (machine viewing) = Some (mkPending tmp false) ∧
  (∀ key, step viewing (Key key) = viewing) ∧
  ∀ w' code events,
    is_Some (fs_files w' !! tmp) → tmp ∉ fs_locked w' →
    let closed := steps viewing [Outside w'; LessClosed code] in
    status closed = Exited 0 ∧
    fs_files (world (machine closed)) !! tmp = None ∧
    listening (stdin (machine closed)) = false ∧
    steps closed events = closed.
Proof.
  destruct w as [wf wl wc we]. unfold tmp_path, showSingle.
  cbn [clock fs_locked]. intros Hlock. cbv zeta.
  assert (E : run (Viewer.showWithLess content name false None)
                (mkMachine (mkSelector [] 0 false "" []) (mkStdin false true false)
                           (mkWorld wf wl wc we) None [])
    = mkConfig
        (mkMachine (mkSelector [] 0 false "" []) (mkStdin false true false)
           (mkWorld (<[path_join os_tmpdir ("mdview-" +:+ show wc +:+ ".txt")
                       := Render.artifact we name content]> wf) wl wc we)
           (Some (mkPending
                    (path_join os_tmpdir ("mdview-" +:+ show wc +:+ ".txt")) false))
           [WriteFile (path_join os_tmpdir ("mdview-" +:+ show wc +:+ ".txt"))
                      (Render.artifact we name content);
            Spawn "less" (Viewer.lessArgs None
              (path_join os_tmpdir ("mdview-" +:+ show wc +:+ ".txt")))])
        Running).
  { exec. destruct (decide _) as [Hin | _]; [contradiction | reflexivity]. }
  rewrite E. split; [reflexivity |]. split; [reflexivity |]. split; [reflexivity |].
  intros [wf' wl' wc' we'] code events [old Hold] Hlock'.
  cbn [fs_files fs_locked] in Hold, Hlock'.
  assert (E' : steps
      (mkConfig
        (mkMachine (mkSelector [] 0 false "" []) (mkStdin false true false)
           (mkWorld (<[path_join os_tmpdir ("mdview-" +:+ show wc +:+ ".txt")
                       := Render.artifact we name content]> wf) wl wc we)
           (Some (mkPending
                    (path_join os_tmpdir ("mdview-" +:+ show wc +:+ ".txt")) false))
           [WriteFile (path_join os_tmpdir ("mdview-" +:+ show wc +:+ ".txt"))
                      (Render.artifact we name content);
            Spawn "less" (Viewer.lessArgs None
              (path_join os_tmpdir ("mdview-" +:+ show wc +:+ ".txt")))])
        Running) [Outside (mkWorld wf' wl' wc' we'); LessClosed code]
    = mkConfig
        (mkMachine (mkSelector [] 0 false "" []) (mkStdin false true false)
           (mkWorld (delete (path_join os_tmpdir ("mdview-" +:+ show wc +:+ ".txt")) wf')
                    wl' wc' we')
           None
           ([WriteFile (path_join os_tmpdir ("mdview-" +:+ show wc +:+ ".txt"))
                      (Render.artifact we name content);
             Spawn "less" (Viewer.lessArgs None
               (path_join os_tmpdir ("mdview-" +:+ show wc +:+ ".txt")))]
            ++ [Unlink (path_join os_tmpdir ("mdview-" +:+ show wc +:+ ".txt"))]))
        (Exited 0)).
  { exec. rewrite Hold. destruct (decide _) as [Hin | _]; [contradiction |].
    reflexivity. }
  rewrite E'. cbn [status machine world fs_files stdin listening].
  split; [reflexivity |]. split; [apply lookup_delete_eq |].
  split; [reflexivity |]. now apply dead_steps.
Qed.

End SessionFacts.

Lemma showWithLess_hands_over_or_fails_witness :
  let w := Process.mkWorld ∅ ∅ 5 ∅ in
  let m := Process.mkMachine (Process.mkSelector [] 0 false "" [])
             (Process.mkStdin false true false) w None [] in
  let locked := Process.mkMachine (Process.mkSelector [] 0 false "" [])
             (Process.mkStdin false true false)
             (Process.mkWorld ∅ {[ "/tmp/mdview-5.txt" ]} 5 ∅) None [] in
  (∃ m', Viewer.showWithLess (H := plain_host) "text" "n.md" true None m
         = Process.Return tt m' ∧
         Process.pending m' = Some (Process.mkPending "/tmp/mdview-5.txt" true)) ∧
  Viewer.showWithLess (H := plain_host) "text" "n.md" true None locked
  = Process.Throw locked.
Proof.
  intros w m locked. split.
  - destruct (showWithLess_hands_over_or_fails (H := plain_host)
                "text" "n.md" true None m) as [Hok _].
    destruct Hok as (m' & Hrun & _ & _ & Hpend & _);
      [apply not_elem_of_empty |].
    exists m'. split; [exact Hrun | exact Hpend].
  - destruct (showWithLess_hands_over_or_fails (H := plain_host)
                "text" "n.md" true None locked) as [_ Hfail].
    apply Hfail. vm_compute. reflexivity.
Defined.

Lemma open_file_and_return_witness :
  let w := Process.mkWorld {[ "a.md" := "one"; "b.md" := "two" ]} ∅ 0 ∅ in
  let m := Process.mkMachine (Process.mkSelector ["a.md"; "b.md"] 1 false "" [])
             (Process.mkStdin true false true) w None [] in
  let launched :=
    Browser.step (H := plain_host) (Browser.mkConfig m Browser.Running)
      (Browser.Key Browser.key_cr) in
  Process.pending (Browser.machine launched)
  = Some (Process.mkPending "/tmp/mdview-0.txt" true) ∧
  Process.sel
    (Browser.machine
       (Browser.steps (H := plain_host) launched
          [Browser.Outside (Process.world (Browser.machine launched));
           Browser.LessClosed 0]))
  = Process.mkSelector ["a.md"; "b.md"] 0 false "" [].
Proof.
  intros w m launched.
  destruct (open_file_and_return (H := plain_host) m Browser.key_cr "b.md" "two"
              (or_introl eq_refl) eq_refl eq_refl eq_refl eq_refl eq_refl
              ltac:(apply not_elem_of_empty))
    as (_ & _ & Hpend & Hback).
  split; [exact Hpend |].
  destruct (Hback (Process.world (Browser.machine launched)) 0)
    as (_ & Hsel & _);
    [eexists; reflexivity | apply not_elem_of_empty | exact Hsel].
Defined.

Lemma single_view_ends_the_process_witness :
  let w := Process.mkWorld ∅ ∅ 0 ∅ in
  let viewing := Browser.showSingle (H := plain_host) "text" "stdin" w in
  Browser.step (H := plain_host) viewing (Browser.Key "q") = viewing ∧
  Browser.status
    (Browser.steps (H := plain_host) viewing
       [Browser.Outside (Process.world (Browser.machine viewing));
        Browser.LessClosed 2])
  = Browser.Exited 0.
Proof.
  intros w viewing.
  destruct (single_view_ends_the_process (H := plain_host) "text" "stdin" w
              ltac:(apply not_elem_of_empty))
    as (_ & _ & Hkeys & Hclose).
  split; [apply Hkeys |].
  destruct (Hclose (Process.world (Browser.machine viewing)) 2 [])
    as (Hexit & _);
    [eexists; reflexivity | apply not_elem_of_empty | exact Hexit].
Defined.

(** ** The keys of the selector *)

Section KeyFacts.
Import JsString Spec Notions Search Process Browser.
Context `{Host}.

(** What the tests of [inputHandler] give on a key taken as typed text. *)
Lemma typed_key_tests key :
  typed_key key →
  String.eqb key key_ctrl_c = false ∧ String.eqb key key_escape = false ∧
  String.eqb key key_delete = false ∧ String.eqb key key_backspace = false ∧
  String.eqb key key_cr = false ∧ String.eqb key key_lf = false ∧
  String.eqb key key_up = false ∧ String.eqb key key_down = false ∧
  (String.length key =? 1)%nat = true ∧ String.leb " " key = true.
Proof.
  intros (Hlen & Hleb & Hdel).
  destruct key as [|c [|c' key]]; try discriminate.
  destruct c as [[] [] [] [] [] [] [] []]; try discriminate Hleb;
    try (exfalso; apply Hdel; reflexivity);
    repeat split; reflexivity.
Qed.

Lemma str_take_app_one q key :
  String.length key = 1%nat →
  str_take (String.length (q +:+ key) - 1) (q +:+ key) = q.
Proof.
  intros Hk. rewrite str_length_app, Hk.
  replace (String.length q + 1 - 1)%nat with (String.length q) by lia.
  induction q as [|c q IH]; simpl; [reflexivity | now rewrite IH].
Qed.

(** One typed unit in search mode. *)
Lemma typed_step fs i q rs st w pd tr key :
  typed_key key →
  listening st = true → paused st = false →
  step (mkConfig (mkMachine (mkSelector fs i true q rs) st w pd tr) Running)
       (Key key)
  = mkConfig
      (mkMachine
         (mkSelector fs 0 true (q +:+ key)
            (searchInFiles (fs_files w) fs (q +:+ key)))
         st w pd (tr ++ [ClearScreen] ++ [Repaint]))
      Running.
Proof.
  intros Hkey Hl Hp.
  destruct (typed_key_tests key Hkey)
    as (T1 & T2 & T3 & T4 & T5 & T6 & T7 & T8 & T9 & T10).
  destruct st as [raw pz ls], w as [wf wl wc we]. cbn in Hl, Hp. subst.
  exec. rewrite T1. exec. rewrite T2. exec. rewrite T3, T4. exec.
  rewrite T5, T6. exec. rewrite T7. exec. rewrite T8. exec.
  rewrite T9, T10. exec. now rewrite <- app_assoc.
Qed.

(** One backspace in search mode. *)
Lemma backspace_step fs i q rs st w pd tr :
  listening st = true → paused st = false →
  step (mkConfig (mkMachine (mkSelector fs i true q rs) st w pd tr) Running)
       (Key key_delete)
  = mkConfig
      (mkMachine
         (mkSelector fs 0 true (str_take (String.length q - 1) q)
            (if (0 <? String.length (str_take (String.length q - 1) q))%nat
             then searchInFiles (fs_files w) fs (str_take (String.length q - 1) q)
             else []))
         st w pd (tr ++ [ClearScreen] ++ [Repaint]))
      Running.
Proof.
  intros Hl Hp.
  destruct st as [raw pz ls], w as [wf wl wc we]. cbn in Hl, Hp. subst.
  exec. destruct (0 <? String.length (str_take (String.length q - 1) q))%nat;
    exec; now rewrite <- app_assoc.
Qed.

(** X12: In search mode every single unit from the space on, the delete unit
    apart, is typed text: it is added at the end of the query, the results
    are those of a search for the new query in the listed files, and the
    cursor goes to 0.  That holds for [q], [k], [j] and [/], which quit,
    move and start a search in normal mode only. *)
Theorem typing_extends_the_query (m : Machine) (key : string) :
  typed_key key →
  listening (stdin m) = true → paused (stdin m) = false →
  searchMode (sel m) = true →
  let after := step (mkConfig m Running) (Key key) in
  status after = Running ∧
  sel (machine after)
  = mkSelector (files (sel m)) 0 true (searchQuery (sel m) +:+ key)
      (searchInFiles (fs_files (world m)) (files (sel m))
         (searchQuery (sel m) +:+ key)) ∧
  results_fresh (machine after) ∧
  world (machine after) = world m ∧ pending (machine after) = pending m ∧
  (typed_key "q" ∧ typed_key "k" ∧ typed_key "j" ∧ typed_key "/").
Proof.
  destruct m as [[fs i mode q rs] st w pd tr]. cbn [stdin sel searchMode].
  intros Hkey Hl Hp ->. cbv zeta. rewrite typed_step by assumption.
  cbn [status machine sel files searchQuery world pending].
  repeat split; try discriminate.
  unfold results_fresh. cbn [sel searchResults searchQuery world files].
  destruct Hkey as (Hlen & _). rewrite str_length_app, Hlen.
  replace (0 <? String.length q + 1)%nat with true; [reflexivity |].
  symmetry. apply Nat.ltb_lt. lia.
Qed.

(** X13: Backspace takes back what was typed: from a search state whose results
    agree with its query, a typed unit followed by a backspace leaves the
    query and the results as they were, with the cursor at 0. *)
Theorem backspace_undoes_typing (m : Machine) (key : string) :
  typed_key key →
  listening (stdin m) = true → paused (stdin m) = false →
  searchMode (sel m) = true → results_fresh m →
  let after := steps (mkConfig m Running) [Key key; Key key_delete] in
  status after = Running ∧
  sel (machine after) = with_selected (sel m) 0 ∧
  stdin (machine after) = stdin m ∧ world (machine after) = world m ∧
  pending (machine after) = pending m.
Proof.
  destruct m as [[fs i mode q rs] st w pd tr].
  unfold results_fresh, with_selected.
  cbn [stdin sel searchMode searchResults searchQuery world files pending].
  intros Hkey Hl Hp -> Hfresh. cbv zeta.
  rewrite !steps_cons, typed_step, backspace_step by assumption.
  cbn [steps fold_left status machine sel stdin world pending].
  rewrite str_take_app_one by apply Hkey.
  repeat split. now rewrite <- Hfresh.
Qed.

(** X14: Ctrl-C in either mode, and [q] in normal mode, clear the screen and end
    the process with code 0, at once: nothing else happens, and no later
    event has any effect. *)
Theorem quit_keys_exit (m : Machine) (key : string) :
  key = key_ctrl_c ∨ (searchMode (sel m) = false ∧ key = "q") →
  listening (stdin m) = true → paused (stdin m) = false →
  let after := step (mkConfig m Running) (Key key) in
  after = mkConfig
            (mkMachine (sel m) (stdin m) (world m) (pending m)
                       (trace m ++ [ClearScreen]))
            (Exited 0) ∧
  ∀ events, steps after events = after.
Proof.
  destruct m as [[fs i mode q rs] [raw pz ls] [wf wl wc we] pd tr].
  cbn [sel stdin world pending trace searchMode listening paused].
  intros Hkey -> ->. cbv zeta.
  assert (E : step
      (mkConfig (mkMachine (mkSelector fs i mode q rs) (mkStdin raw false true)
                           (mkWorld wf wl wc we) pd tr) Running) (Key key)
    = mkConfig (mkMachine (mkSelector fs i mode q rs) (mkStdin raw false true)
                          (mkWorld wf wl wc we) pd (tr ++ [ClearScreen]))
               (Exited 0)).
  { destruct Hkey as [-> | [-> ->]]; exec; reflexivity. }
  rewrite E. split; [reflexivity |]. intros events. now apply dead_steps.
Qed.

(** X15: Keys without a meaning change nothing and repaint nothing.  In normal
    mode these are all keys but Ctrl-C, [q], [/], Enter, the up and down
    arrows, [k] and [j].  In search mode they are the chunks of several
    units other than the two arrows (pasted text, other escape sequences)
    and the single units below the space other than Ctrl-C, Escape,
    Backspace and Enter. *)
Theorem other_keys_are_ignored (cfg : Config) (key : string) :
  (searchMode (sel (machine cfg)) = false ∧
   ¬ In key [key_ctrl_c; "q"; "/"; key_cr; key_lf; key_up; "k"; key_down; "j"]) ∨
  (searchMode (sel (machine cfg)) = true ∧
   ¬ In key [key_ctrl_c; key_escape; key_delete; key_backspace; key_cr; key_lf;
             key_up; key_down] ∧
   (String.length key ≠ 1%nat ∨ String.leb " " key = false)) →
  step cfg (Key key) = cfg.
Proof.
  destruct cfg as [[[fs i mode q rs] [raw pz ls] [wf wl wc we] pd tr] st].
  cbn [machine sel searchMode]. intros Hkey.
  destruct st; [| reflexivity ..].
  destruct ls, pz; try reflexivity.
  assert (Hne : ∀ l x, ¬ In key l → In x l → String.eqb key x = false).
  { intros l x Hl Hx. apply String.eqb_neq. intros ->. contradiction. }
  destruct Hkey as [[-> Hout] | (-> & Hout & Hshape)].
  - exec.
    rewrite !(Hne _ _ Hout) by (cbn; tauto). exec. reflexivity.
  - exec.
    rewrite !(Hne _ _ Hout) by (cbn; tauto). exec.
    destruct Hshape as [Hlen | Hleb].
    + apply Nat.eqb_neq in Hlen. rewrite Hlen. exec. reflexivity.
    + rewrite Hleb. destruct (String.length key =? 1)%nat; exec; reflexivity.
Qed.

End KeyFacts.

Lemma typing_extends_the_query_witness :
  let m := Process.mkMachine (Process.mkSelector ["n.md"] 0 true "" [])
             (Process.mkStdin true false true)
             (Process.mkWorld {[ "n.md" := "quit" ]} ∅ 0 ∅) None [] in
  let after := Browser.step (H := plain_host)
                 (Browser.mkConfig m Browser.Running) (Browser.Key "q") in
  Browser.status after = Browser.Running ∧
  Process.searchQuery (Process.sel (Browser.machine after)) = "q".
Proof.
  intros m after.
  destruct (typing_extends_the_query (H := plain_host) m "q"
              ltac:(repeat split; discriminate) eq_refl eq_refl eq_refl)
    as (Hrun & Hsel & _).
  split; [exact Hrun |]. subst after. rewrite Hsel. reflexivity.
Defined.

Lemma backspace_undoes_typing_witness :
  let m := Process.mkMachine
             (Process.mkSelector ["n.md"] 0 true "al"
                [Search.mkResult "n.md" "n.md" "n.md" 1 "Project Alpha"])
             (Process.mkStdin true false true)
             (Process.mkWorld {[ "n.md" := "Project Alpha" ]} ∅ 0 ∅) None [] in
  Process.sel
    (Browser.machine
       (Browser.steps (H := plain_host) (Browser.mkConfig m Browser.Running)
          [Browser.Key "x"; Browser.Key Browser.key_delete]))
  = Process.sel m.
Proof.
  intros m.
  destruct (backspace_undoes_typing (H := plain_host) m "x"
              ltac:(repeat split; discriminate) eq_refl eq_refl eq_refl
              ltac:(vm_compute; reflexivity))
    as (_ & Hsel & _).
  exact Hsel.
Defined.

Lemma quit_keys_exit_witness :
  let m := Process.mkMachine (Process.mkSelector ["n.md"] 0 false "" [])
             (Process.mkStdin true false true)
             (Process.mkWorld ∅ ∅ 0 ∅) None [] in
  Browser.status
    (Browser.step (H := plain_host) (Browser.mkConfig m Browser.Running)
       (Browser.Key "q"))
  = Browser.Exited 0.
Proof.
  intros m.
  destruct (quit_keys_exit (H := plain_host) m "q"
              (or_intror (conj eq_refl eq_refl)) eq_refl eq_refl) as [E _].
  exact (f_equal Browser.status E).
Defined.

Lemma other_keys_are_ignored_witness :
  let cfg := Browser.mkConfig
    (Process.mkMachine (Process.mkSelector ["n.md"] 0 true "al" [])
       (Process.mkStdin true false true)
       (Process.mkWorld ∅ ∅ 0 ∅) None []) Browser.Running in
  Browser.step (H := plain_host) cfg (Browser.Key "pasted text") = cfg.
Proof.
  intros cfg.
  apply (other_keys_are_ignored (H := plain_host) cfg "pasted text").
  right. split; [reflexivity |]. split; [| left; discriminate].
  cbn. intros Hin. repeat (destruct Hin as [Hin | Hin]; [discriminate |]).
  exact Hin.
Defined.

(** ** What holds in every state of a session *)

Section SessionInvariants.
Import JsString Spec Notions Search Process Browser.
Context `{Host}.

Lemma search_results_ok store fs query :
  Forall (fun r => In (file r) fs ∧ 1 <= line r ∧
                   (String.length (preview r) <= 80)%nat)
         (searchInFiles store fs query).
Proof.
  apply List.Forall_forall. intros r.
  rewrite searchInFiles_flat_map, in_flat_map.
  intros (f & Hf & Hr). unfold search_one in Hr.
  destruct (store !! f) as [content|]; [| destruct Hr].
  pose proof (first_match_spec (toLowerCase query) (split_lines content) 0) as Hfm.
  destruct (first_match _ _ 0) as [[i l]|]; [| destruct Hr].
  destruct Hr as [<- | []]. destruct Hfm as (k & -> & _).
  cbn [file line preview]. split; [exact Hf |]. split; [lia |].
  apply str_take_length.
Qed.

Lemma inputHandler_search_state_ok key m :
  search_state_ok m → after search_state_ok (inputHandler key m).
Proof.
  destruct m as [[fs i mode q rs] [raw pz ls] [wf wl wc we] pd tr].
  unfold search_state_ok. exec. intros [Hb Hf].
  split_tests; cbv [after]; exec;
    (split;
     [ first [ exact Hb | intros; split; reflexivity | intros; discriminate ]
     | first [ exact Hf | apply search_results_ok | constructor ] ]).
Qed.

Lemma step_search_state_ok cfg e :
  search_state_ok (machine cfg) → search_state_ok (machine (step cfg e)).
Proof.
  intros Hg. destruct cfg as [m st]. destruct st; [| exact Hg ..].
  destruct e as [key | code | w'].
  - unfold step. cbn [status machine].
    destruct (listening (stdin m) && negb (paused (stdin m))); [| exact Hg].
    pose proof (inputHandler_search_state_ok key m Hg) as Hk.
    unfold run. now destruct (inputHandler key m).
  - destruct m as [[fs i mode q rs] [raw pz ls] [wf wl wc we] pd tr].
    unfold search_state_ok in *. exec.
    destruct pd as [[tmp k]|]; [| exact Hg].
    split_tests; exec; try exact Hg; (split; [intros; now split | constructor]).
  - destruct m as [[fs i mode q rs] [raw pz ls] [wf wl wc we] pd tr].
    exact Hg.
Qed.

Lemma steps_search_state_ok events : ∀ cfg,
  search_state_ok (machine cfg) → search_state_ok (machine (steps cfg events)).
Proof.
  induction events as [|e events IH]; intros cfg Hg; [exact Hg |].
  apply IH, step_search_state_ok, Hg.
Qed.

Lemma step_terminal_owned cfg e :
  terminal_owned cfg → terminal_owned (step cfg e).
Proof.
  destruct cfg as [[[fs i mode q rs] [raw pz ls] [wf wl wc we] pd tr] st].
  unfold terminal_owned, selector_has_terminal, viewer_has_terminal.
  cbn [status machine stdin pending]. intros Hown.
  destruct st; [| intros Hrun; discriminate Hrun ..].
  destruct (Hown eq_refl) as [[Es Ep] | [Es [p Ep]]];
    injection Es as -> -> ->; subst pd.
  - destruct e as [key | code | w'].
    + exec. split_tests; exec; intros Hrun; try discriminate Hrun;
        first [ left; split; reflexivity
              | right; split; [reflexivity | eexists; reflexivity] ].
    + intros _. left. split; reflexivity.
    + intros _. left. split; reflexivity.
  - destruct e as [key | code | w'].
    + intros _. right. split; [reflexivity | eexists; reflexivity].
    + destruct p as [tmp k]. exec.
      split_tests; exec; intros Hrun; try discriminate Hrun.
      left. split; reflexivity.
    + intros _. right. split; [reflexivity | eexists; reflexivity].
Qed.

Lemma steps_terminal_owned events : ∀ cfg,
  terminal_owned cfg → terminal_owned (steps cfg events).
Proof.
  induction events as [|e events IH]; intros cfg Hg; [exact Hg |].
  apply IH, step_terminal_owned, Hg.
Qed.

Lemma index_in_range {A} (l : list A) i :
  0 <= i < Z.of_nat (length l) → ∃ x, index l i = Some x ∧ In x l.
Proof.
  intros Hi. unfold index.
  replace (i <? 0) with false by (symmetry; apply Z.ltb_ge; lia).
  destruct (lookup_lt_is_Some_2 l (Z.to_nat i)) as [x Hx]; [lia |].
  exists x. split; [exact Hx |].
  apply list_elem_of_In. eapply list_elem_of_lookup_2, Hx.
Qed.

(** X16: The terminal has one owner at a time.  In every running state of a
    session, whether it began with the selector or with a single document,
    either the selector holds the terminal (raw mode on, input flowing to
    the key handler, no viewer pending) or the viewer does (raw mode off,
    input paused, the key handler removed, the close callback pending).
    So a key pressed while the viewer runs never reaches the selector, and
    the end of a viewer is acted on once. *)
Theorem terminal_has_one_owner (fs : list string) (content name : string)
    (w : World) (events : list Event) :
  let browsing := steps (showFileSelector fs w) events in
  let viewing := steps (showSingle content name w) events in
  terminal_owned browsing ∧ terminal_owned viewing ∧
  (∀ cfg key, viewer_has_terminal (machine cfg) → step cfg (Key key) = cfg) ∧
  (∀ cfg code, selector_has_terminal (machine cfg) →
               step cfg (LessClosed code) = cfg).
Proof.
  cbv zeta. split; [| split; [| split]].
  - apply steps_terminal_owned. destruct w as [wf wl wc we].
    intros _. left. split; reflexivity.
  - apply steps_terminal_owned. destruct w as [wf wl wc we].
    unfold terminal_owned, showSingle. exec.
    split_tests; intros Hrun; try discriminate Hrun.
    right. split; [reflexivity | eexists; reflexivity].
  - intros [[s st w0 pd tr] status0] key [Es _]. cbn [machine stdin] in Es.
    subst st. now destruct status0.
  - intros [[s st w0 pd tr] status0] code [_ Ep]. cbn [machine pending] in Ep.
    subst pd. now destruct status0.
Qed.

(** X17: In every state of a selector session, whatever keys were pressed,
    viewers opened and closed, and files changed meanwhile: the file list
    is the one the selector was opened on; outside search mode the query
    and the results are empty; and every result held names a file of that
    list, a line number from 1 on and a preview of at most 80 units. *)
Theorem selector_state_invariant (fs : list string) (w : World)
    (events : list Event) :
  let m := machine (steps (showFileSelector fs w) events) in
  files (sel m) = fs ∧
  (searchMode (sel m) = false →
     searchQuery (sel m) = "" ∧ searchResults (sel m) = []) ∧
  ∀ r, In r (searchResults (sel m)) →
       In (file r) fs ∧ 1 <= line r ∧ (String.length (preview r) <= 80)%nat.
Proof.
  cbv zeta.
  assert (E : files (sel (machine (showFileSelector fs w))) = fs)
    by (now destruct w).
  assert (Hok : search_state_ok (machine (steps (showFileSelector fs w) events))).
  { apply steps_search_state_ok. destruct w as [wf wl wc we].
    unfold search_state_ok, showFileSelector. exec.
    split; [intros; now split | constructor]. }
  destruct Hok as [Hb Hf]. rewrite steps_files, E in *.
  split; [reflexivity |]. split; [exact Hb |].
  intros r Hr. rewrite List.Forall_forall in Hf. apply Hf, Hr.
Qed.

(** X18: Enter always finds an entry under the cursor.  In every state of a
    selector opened on a non-empty file list, the cursor indexes a file of
    that list in normal mode, and in search mode it indexes a result,
    naming a file of that list, whenever there are results: the handler
    never reads an element out of range. *)
Theorem cursor_always_on_an_entry (fs : list string) (w : World)
    (events : list Event) :
  fs ≠ [] →
  let m := machine (steps (showFileSelector fs w) events) in
  (searchMode (sel m) = false →
     ∃ f, index (files (sel m)) (selected (sel m)) = Some f ∧ In f fs) ∧
  (searchMode (sel m) = true → searchResults (sel m) ≠ [] →
     ∃ r, index (searchResults (sel m)) (selected (sel m)) = Some r ∧
          In (file r) fs).
Proof.
  intros Hfs. cbv zeta.
  assert (E : files (sel (machine (showFileSelector fs w))) = fs)
    by (now destruct w).
  assert (Hc : cursor_ok (machine (steps (showFileSelector fs w) events))).
  { apply steps_cursor_ok. destruct w as [wf wl wc we].
    unfold cursor_ok, showFileSelector, active_length. exec. intros _. lia. }
  assert (Hok : search_state_ok (machine (steps (showFileSelector fs w) events))).
  { apply steps_search_state_ok. destruct w as [wf wl wc we].
    unfold search_state_ok, showFileSelector. exec.
    split; [intros; now split | constructor]. }
  destruct Hok as [_ Hf]. unfold cursor_ok, active_length in Hc.
  rewrite steps_files, E in *. specialize (Hc Hfs).
  split; intros Hmode; rewrite Hmode in Hc.
  - apply index_in_range. destruct fs; [contradiction |]. cbn [length] in *. lia.
  - intros Hrs.
    destruct (index_in_range (searchResults
        (sel (machine (steps (showFileSelector fs w) events))))
        (selected (sel (machine (steps (showFileSelector fs w) events)))))
      as (r & Hr & Hin).
    { destruct (searchResults _); [contradiction |]. cbn [length] in *. lia. }
    exists r. split; [exact Hr |].
    rewrite List.Forall_forall in Hf. apply Hf, Hin.
Qed.

End SessionInvariants.

Lemma cursor_always_on_an_entry_witness :
  let w := Process.mkWorld {[ "a.md" := "one"; "b.md" := "two" ]} ∅ 0 ∅ in
  let m := Browser.machine
             (Browser.steps (H := plain_host)
                (Browser.showFileSelector (H := plain_host) ["a.md"; "b.md"] w)
                [Browser.Key Browser.key_up; Browser.Key Browser.key_up;
                 Browser.Key Browser.key_up]) in
  ∃ f, Process.index (Process.files (Process.sel m))
         (Process.selected (Process.sel m)) = Some f ∧
       In f ["a.md"; "b.md"].
Proof.
  intros w m.
  destruct (cursor_always_on_an_entry (H := plain_host) ["a.md"; "b.md"] w
              [Browser.Key Browser.key_up; Browser.Key Browser.key_up;
               Browser.Key Browser.key_up]
              ltac:(discriminate)) as [Hnormal _].
  apply Hnormal. reflexivity.
Defined.

(** ** The entry point *)

Section MainFacts.
Import JsString Spec Notions Store Search Process Browser Main.
Context `{Host}.

Lemma showFileSelector_running fs w :
  showFileSelector fs w
  = mkConfig (mkMachine (mkSelector fs 0 false "" []) (mkStdin true false true)
                        w None [ClearScreen; Repaint]) Running.
Proof. now destruct w. Qed.

Lemma showFileSelector_piped_crashed fs w :
  status (showFileSelector_piped fs w) = Crashed.
Proof. now destruct w. Qed.

Lemma showSingle_cases content name w :
  ((tmp_path w ∉ fs_locked w) ∧
   one_shot content name w (showSingle content name w)) ∨
  ((tmp_path w ∈ fs_locked w) ∧ status (showSingle content name w) = Crashed).
Proof.
  destruct w as [wf wl wc we]. unfold one_shot, tmp_path, showSingle.
  cbn [fs_locked clock environ]. exec.
  destruct (decide _) as [Hin | Hout]; [right | left]; split; try assumption;
    try reflexivity.
  cbn [status machine pending world fs_files trace].
  repeat split. apply lookup_insert_eq.
Qed.

Lemma trimEnd_blank s : trimEnd s = "" → blank s = true.
Proof.
  induction s as [|c s IH]; simpl; [reflexivity |].
  destruct (trimEnd s); [| discriminate].
  destruct (is_space c); [intros _; now rewrite IH | discriminate].
Qed.

Lemma blank_trimStart s : blank s = true → trimStart s = "".
Proof.
  induction s as [|c s IH]; simpl; [reflexivity |].
  destruct (is_space c); [exact IH | discriminate].
Qed.

Lemma trimStart_blank s : blank (trimStart s) = true → blank s = true.
Proof.
  induction s as [|c s IH]; simpl; [reflexivity |].
  destruct (is_space c) eqn:E; [exact IH |].
  simpl. now rewrite E.
Qed.

Lemma trim_blank s : trim s = "" ↔ blank s = true.
Proof.
  unfold trim. split.
  - intros E. now apply trimStart_blank, trimEnd_blank.
  - intros E. now rewrite blank_trimStart.
Qed.

Lemma for_of_unreadable entries :
  forallb readable entries = false →
  ∀ dir acc, for_of (visit dir) entries acc = None.
Proof.
  assert (Hfor : ∀ es,
    Forall (fun e => readable e = false → ∀ dir acc, visit dir e acc = None) es →
    forallb readable es = false → ∀ d a, for_of (visit d) es a = None).
  { induction 1 as [|e es He _ IHes]; intros Hr d a; simpl in *; [discriminate |].
    destruct (visit d e a) as [a'|] eqn:Ev; [| reflexivity].
    apply andb_false_iff in Hr as [Hr | Hr]; [| now apply IHes].
    now rewrite (He Hr) in Ev. }
  intros Hr. apply Hfor; [| exact Hr]. clear Hr.
  apply Forall_forall. intros e _.
  induction e as [n | n | n | n es IH] using Dirent_forall_ind;
    intros Hr dir acc; simpl in *; try discriminate.
  - destruct (descends n); [reflexivity | discriminate].
  - destruct (descends n); [| discriminate].
    now rewrite (Hfor es IH Hr).
Qed.

Lemma findMarkdownFiles_listed dir entries l :
  findMarkdownFiles dir (Some entries) = Some l →
  StronglySorted String.le l ∧ ∀ p, In p l ↔ Listed dir entries p.
Proof.
  unfold findMarkdownFiles. intros Hl.
  destruct (for_of (visit dir) entries []) as [res|] eqn:Eres; [| discriminate].
  injection Hl as <-. split.
  - apply StronglySorted_merge_sort; apply _.
  - intros p. rewrite In_sort.
    assert (Hall : Forall adds_listed entries)
      by (apply Forall_forall; intros e _; apply visit_listed).
    rewrite (for_of_listed entries Hall _ _ _ Eres p).
    split; [intros [[] | ?]; assumption | now right].
Qed.

(** X19: The scan is all or nothing.  [findMarkdownFiles] returns a list exactly
    when the directory and every directory the scan enters can be read; one
    unreadable directory anywhere in the walked tree makes the whole call
    throw, whatever was collected before, and no partial list is returned. *)
Theorem findMarkdownFiles_all_or_nothing (dir : string)
    (listing : option (list Dirent)) :
  is_Some (findMarkdownFiles dir listing)
  ↔ ∃ entries, listing = Some entries ∧ forallb readable entries = true.
Proof.
  destruct listing as [entries|]; simpl.
  - destruct (forallb readable entries) eqn:Er.
    + destruct (for_of_total entries Er dir []) as [res ->].
      split; [intros _; now exists entries | intros _; eexists; reflexivity].
    + rewrite (for_of_unreadable entries Er). split.
      * intros [x Hx]. discriminate Hx.
      * intros (es & [= <-] & Hes). congruence.
  - split; [intros [x Hx]; discriminate Hx | intros (es & Hes & _); discriminate Hes].
Qed.

(** X20: How [main] can end before the first event.  It returns after printing
    the usage text or nothing at all; or it exits, and then always with
    code 1 and one message on standard error; or it leaves a session
    running, in which the terminal has one owner.  It never exits silently
    and never with another code. *)
Theorem main_outcomes (inv : Invocation) (w : World) :
  match main inv w with
  | Ended out => out = [Usage] ∨ out = []
  | Quit code out => code = 1 ∧ ((∃ text, out = [Stderr text]) ∨ out = [StderrError])
  | Started cfg => status cfg = Running ∧ terminal_owned cfg
  end.
Proof.
  assert (Hsingle : ∀ content name,
    match caught (showSingle content name w) with
    | Ended out => out = [Usage] ∨ out = []
    | Quit code out =>
        code = 1 ∧ ((∃ text, out = [Stderr text]) ∨ out = [StderrError])
    | Started cfg => status cfg = Running ∧ terminal_owned cfg
    end).
  { intros content name. unfold caught.
    destruct (showSingle_cases content name w) as [[_ Hone] | [_ ->]].
    - destruct Hone as (Hrun & Hpend & _). rewrite Hrun.
      split; [exact Hrun |]. intros _. right.
      destruct w as [wf wl wc we]. split; [| eexists; exact Hpend].
      unfold showSingle. exec. now split_tests.
    - split; [reflexivity | now right]. }
  unfold main.
  destruct (includes_arg "-h" (args inv) || includes_arg "--help" (args inv));
    [now left |].
  destruct (negb (stdin_isTTY inv) && (length (args inv) =? 0)%nat).
  - cbv zeta. destruct (trim (stdin_text inv)); [now right | apply Hsingle].
  - cbv zeta. destruct (stat inv (target_of (args inv))) as [[listing|]|].
    + destruct (findMarkdownFiles _ listing) as [[|f l]|].
      * split; [reflexivity | left; eexists; reflexivity].
      * destruct (stdin_isTTY inv).
        -- rewrite showFileSelector_running. unfold caught. cbn [status].
           split; [reflexivity |]. intros _. left. split; reflexivity.
        -- unfold caught. rewrite showFileSelector_piped_crashed.
           split; [reflexivity | now right].
      * split; [reflexivity | now right].
    + destruct (fs_files w !! target_of (args inv)); [apply Hsingle |].
      split; [reflexivity | now right].
    + split; [reflexivity | left; eexists; reflexivity].
Qed.

(** X21: Only the first argument names the target.  Without a help flag
    among the arguments, later arguments are ignored and what standard
    input would deliver is not read once there is an argument; an empty
    first argument stands for the current directory, as does no argument
    at all on a terminal.  Whether standard input is a terminal then
    matters for a directory only, where the selector needs one. *)
Theorem main_first_argument_only (a : string) (rest : list string)
    (tty tty' : bool) (text text' : string) (st : string → option Kind)
    (w : World) :
  includes_arg "-h" (a :: rest) = false →
  includes_arg "--help" (a :: rest) = false →
  let target := if String.eqb a "" then "." else a in
  main (mkInvocation (a :: rest) tty text st) w
  = main (mkInvocation [target] tty text' st) w ∧
  main (mkInvocation [] true text st) w
  = main (mkInvocation ["."] true text' st) w ∧
  ((∀ listing, st target ≠ Some (KDir listing)) →
     main (mkInvocation (a :: rest) tty text st) w
     = main (mkInvocation [target] tty' text' st) w).
Proof.
  unfold includes_arg. cbn [existsb]. intros Hh Hhelp.
  apply orb_false_iff in Hh as [Hh Hh']. apply orb_false_iff in Hhelp as [Hp Hp'].
  cbv zeta.
  assert (E : ∀ t t' x x',
    (t = t' ∨ ∀ listing,
       st (if String.eqb a "" then "." else a) ≠ Some (KDir listing)) →
    main (mkInvocation (a :: rest) t x st) w
    = main (mkInvocation [if String.eqb a "" then "." else a] t' x' st) w).
  { intros t t' x x' Htty. unfold main, includes_arg, target_of.
    cbn [args stdin_isTTY stdin_text stat existsb length Nat.eqb].
    rewrite Hh, Hh', Hp, Hp', !andb_false_r. cbn [orb].
    destruct (String.eqb a "") eqn:Ea.
    - cbn [String.eqb Ascii.eqb orb]. eval_closed. cbn [orb].
      destruct (st ".") as [[listing|]|] eqn:Est; try reflexivity.
      destruct Htty as [-> | Hno]; [reflexivity |].
      now destruct (Hno listing).
    - rewrite Ea, Hh, Hp. cbn [orb].
      destruct (st a) as [[listing|]|] eqn:Est; try reflexivity.
      destruct Htty as [-> | Hno]; [reflexivity |].
      now destruct (Hno listing). }
  split; [apply E; now left |]. split; [| intros Hno; apply E; now right].
  unfold main. cbn [args stdin_isTTY length Nat.eqb negb andb]. reflexivity.
Qed.

Lemma main_with_target inv w target :
  names_target inv target →
  main inv w
  = match stat inv target with
    | None =>
        Quit 1 [Stderr (Chalk.applyStyle (Render.chalk_level (environ w)) red
                          ("  Error: Not found: " +:+ target))]
    | Some (KDir listing) =>
        match findMarkdownFiles target listing with
        | None => Quit 1 [StderrError]
        | Some [] =>
            Quit 1 [Stderr (Chalk.applyStyle (Render.chalk_level (environ w)) red
                              ("  No markdown files found in " +:+ target))]
        | Some mdFiles =>
            caught (if stdin_isTTY inv then showFileSelector mdFiles w
                    else showFileSelector_piped mdFiles w)
        end
    | Some KNotDir =>
        match fs_files w !! target with
        | None => Quit 1 [StderrError]
        | Some content => caught (showSingle content (path_basename target) w)
        end
    end.
Proof.
  intros (Hh & Hp & Hmode & <-). unfold main. rewrite Hh, Hp. cbn [orb].
  replace (negb (stdin_isTTY inv) && (length (args inv) =? 0)%nat) with false;
    [reflexivity |].
  symmetry. destruct Hmode as [-> | Hargs]; [reflexivity |].
  destruct (args inv); [contradiction | apply andb_false_r].
Qed.

(** X22: Standard input is read when it is no terminal and there is no
    argument.  [main] then returns without printing or starting anything
    exactly when the input is empty or all white space; any other input is
    shown, untrimmed, in a one-shot viewer under the name [stdin], or
    reported with exit code 1 when the transient file cannot be written.
    No path on disk is looked at. *)
Theorem main_reads_stdin (text : string) (st st' : string → option Kind)
    (w : World) :
  let inv := mkInvocation [] false text st in
  (main inv w = Ended [] ↔ blank text = true) ∧
  (blank text = false → tmp_path w ∉ fs_locked w →
     ∃ cfg, main inv w = Started cfg ∧ one_shot text "stdin" w cfg) ∧
  (blank text = false → tmp_path w ∈ fs_locked w →
     main inv w = Quit 1 [StderrError]) ∧
  main (mkInvocation [] false text st') w = main inv w.
Proof.
  cbv zeta.
  assert (E : ∀ s, main (mkInvocation [] false text s) w
                   = match trim text with
                     | EmptyString => Ended []
                     | String _ _ => caught (showSingle text "stdin" w)
                     end) by reflexivity.
  rewrite !E. pose proof (trim_blank text) as Hb.
  destruct (trim text) as [|c t] eqn:Et.
  - assert (Hblank : blank text = true) by now apply Hb.
    rewrite Hblank. repeat split; intros; discriminate.
  - assert (Hblank : blank text = false).
    { destruct (blank text); [| reflexivity].
      destruct Hb as [_ Hb]. discriminate (Hb eq_refl). }
    rewrite Hblank. unfold caught.
    destruct (showSingle_cases text "stdin" w) as [[Hout Hone] | [Hin Hcrash]].
    + split; [| split; [| split]]; try reflexivity.
      * destruct Hone as (-> & _). split; discriminate.
      * intros _ _. exists (showSingle text "stdin" w).
        destruct Hone as (Hrun & Hrest). rewrite Hrun.
        split; [reflexivity |]. split; assumption.
      * intros _ Hin. contradiction.
    + rewrite Hcrash. split; [| split; [| split]]; try reflexivity.
      * split; discriminate.
      * intros _ Hout. contradiction.
Qed.

(** X23: A directory as the target.  When it or a directory the scan enters
    cannot be read, [main] reports an error and exits with code 1.
    Otherwise it exits with code 1 and the message that no markdown files
    were found exactly when the scan lists no file.  When there is one and
    standard input is a terminal, the selector starts in normal mode with
    the cursor at 0, holding the terminal, on the sorted list of exactly
    the files the scan lists; when standard input is no terminal, the
    selector cannot start, and [main] reports an error and exits with
    code 1. *)
Theorem main_on_directory (inv : Invocation) (w : World) (target : string)
    (listing : option (list Dirent)) :
  names_target inv target →
  stat inv target = Some (KDir listing) →
  (listing = None ∨ (∃ es, listing = Some es ∧ forallb readable es = false) →
     main inv w = Quit 1 [StderrError]) ∧
  (∀ es, listing = Some es → forallb readable es = true →
     ((∀ p, ¬ Listed target es p) →
        main inv w
        = Quit 1 [Stderr (Chalk.applyStyle (Render.chalk_level (environ w)) red
                            ("  No markdown files found in " +:+ target))]) ∧
     (∀ p, Listed target es p →
        (stdin_isTTY inv = true →
           ∃ l, StronglySorted String.le l ∧
                (∀ q, In q l ↔ Listed target es q) ∧
                main inv w = Started (showFileSelector l w) ∧
                sel (machine (showFileSelector l w)) = mkSelector l 0 false "" [] ∧
                selector_has_terminal (machine (showFileSelector l w))) ∧
        (stdin_isTTY inv = false → main inv w = Quit 1 [StderrError]))).
Proof.
  intros Hinv Hstat. rewrite (main_with_target inv w target Hinv), Hstat.
  split.
  - intros [-> | (es & -> & Hes)]; [reflexivity |].
    unfold findMarkdownFiles. now rewrite (for_of_unreadable es Hes).
  - intros es -> Hes.
    destruct (findMarkdownFiles target (Some es)) as [l|] eqn:El.
    2: { unfold findMarkdownFiles in El.
         destruct (for_of_total es Hes target []) as [res Hres].
         rewrite Hres in El. discriminate El. }
    destruct (findMarkdownFiles_listed target es l El) as [Hsorted Hlisted].
    split.
    + intros Hnone. destruct l as [|f l]; [reflexivity |].
      exfalso. apply (Hnone f), Hlisted. now left.
    + intros p Hp. apply Hlisted in Hp.
      destruct l as [|f l]; [destruct Hp |]. split; intros ->.
      * exists (f :: l). split; [exact Hsorted |]. split; [exact Hlisted |].
        rewrite showFileSelector_running. cbn [machine sel].
        split; [reflexivity |]. split; [reflexivity | split; reflexivity].
      * unfold caught. now rewrite showFileSelector_piped_crashed.
Qed.

(** X24: A target that is no directory.  A path that does not exist is
    reported in red on standard error with exit code 1.  A path that
    exists is opened as one document in a one-shot viewer under its base
    name, whatever its name ends in; when it cannot be read or the
    transient file cannot be written, the error is reported with exit
    code 1 and nothing is left running. *)
Theorem main_on_file (inv : Invocation) (w : World) (target : string) :
  names_target inv target →
  (stat inv target = None →
     main inv w
     = Quit 1 [Stderr (Chalk.applyStyle (Render.chalk_level (environ w)) red
                         ("  Error: Not found: " +:+ target))]) ∧
  (stat inv target = Some KNotDir →
     ∀ content, fs_files w !! target = Some content →
       tmp_path w ∉ fs_locked w →
       ∃ cfg, main inv w = Started cfg ∧
              one_shot content (path_basename target) w cfg) ∧
  (stat inv target = Some KNotDir →
     fs_files w !! target = None ∨ tmp_path w ∈ fs_locked w →
     main inv w = Quit 1 [StderrError]).
Proof.
  intros Hinv. rewrite (main_with_target inv w target Hinv).
  split; [| split].
  - now intros ->.
  - intros -> content -> Hout. unfold caught.
    destruct (showSingle_cases content (path_basename target) w)
      as [[_ Hone] | [Hin _]]; [| contradiction].
    exists (showSingle content (path_basename target) w).
    destruct Hone as (Hrun & Hrest). rewrite Hrun.
    split; [reflexivity |]. split; assumption.
  - intros -> [-> | Hin]; [reflexivity |].
    destruct (fs_files w !! target) as [content|]; [| reflexivity].
    unfold caught.
    destruct (showSingle_cases content (path_basename target) w)
      as [[Hout _] | [_ ->]]; [contradiction | reflexivity].
Qed.

End MainFacts.

Lemma main_first_argument_only_witness :
  let st := fun p : string =>
    if String.eqb p "docs" then Some (Main.KDir (Some [Store.DFile "a.md"]))
    else None in
  let w := Process.mkWorld {[ "docs/a.md" := "text" ]} ∅ 0 ∅ in
  Main.main (H := plain_host)
    (Main.mkInvocation ["docs"; "other.md"] false "piped" st) w
  = Main.main (H := plain_host) (Main.mkInvocation ["docs"] false "" st) w ∧
  Main.main (H := plain_host) (Main.mkInvocation ["docs"] false "" st) w
  = Main.Quit 1 [Main.StderrError] ∧
  Main.main (H := plain_host)
    (Main.mkInvocation ["gone.md"; "other.md"] false "piped" st) w
  = Main.main (H := plain_host) (Main.mkInvocation ["gone.md"] true "" st) w.
Proof.
  intros st w.
  destruct (main_first_argument_only (H := plain_host) "docs" ["other.md"]
              false true "piped" "" st w eq_refl eq_refl) as [E _].
  destruct (main_first_argument_only (H := plain_host) "gone.md" ["other.md"]
              false true "piped" "" st w eq_refl eq_refl) as (_ & _ & E').
  split; [exact E |]. split; [reflexivity |].
  apply E'. intros listing. discriminate.
Defined.

Lemma main_reads_stdin_witness :
  let w := Process.mkWorld ∅ ∅ 0 ∅ in
  let st := fun _ : string => @None Main.Kind in
  Main.main (H := plain_host)
    (Main.mkInvocation [] false (" " +:+ JsString.nl) st) w
  = Main.Ended [] ∧
  ∃ cfg, Main.main (H := plain_host)
           (Main.mkInvocation [] false " # Title" st) w
         = Main.Started cfg ∧
         Process.pending (Browser.machine cfg)
         = Some (Process.mkPending "/tmp/mdview-0.txt" false).
Proof.
  intros w st. split.
  - destruct (main_reads_stdin (H := plain_host) (" " +:+ JsString.nl) st st w)
      as [[_ Hblank] _].
    apply Hblank. reflexivity.
  - destruct (main_reads_stdin (H := plain_host) " # Title" st st w)
      as (_ & Hshow & _).
    destruct Hshow as (cfg & Hmain & _ & Hpend & _);
      [reflexivity | apply not_elem_of_empty |].
    exists cfg. split; [exact Hmain | exact Hpend].
Defined.

Lemma main_on_directory_witness :
  let entries := [Store.DFile "b.md"; Store.DFile "c.txt"; Store.DFile "a.md"] in
  let st := fun p : string =>
    if String.eqb p "docs" then Some (Main.KDir (Some entries)) else None in
  let w := Process.mkWorld ∅ ∅ 0 ∅ in
  (∃ l, Main.main (H := plain_host) (Main.mkInvocation ["docs"] true "" st) w
        = Main.Started (Browser.showFileSelector (H := plain_host) l w) ∧
        (In "docs/a.md" l ∧ In "docs/b.md" l)) ∧
  Main.main (H := plain_host) (Main.mkInvocation ["docs"] false "" st) w
  = Main.Quit 1 [Main.StderrError].
Proof.
  intros entries st w.
  assert (Ha : Spec.Listed (H := plain_host) "docs" entries "docs/a.md").
  { apply (Spec.Listed_file (H := plain_host) "docs" entries "a.md");
      [right; right; left; reflexivity | left; reflexivity]. }
  assert (Hb : Spec.Listed (H := plain_host) "docs" entries "docs/b.md").
  { apply (Spec.Listed_file (H := plain_host) "docs" entries "b.md");
      [left; reflexivity | left; reflexivity]. }
  split.
  - destruct (main_on_directory (H := plain_host)
                (Main.mkInvocation ["docs"] true "" st) w "docs" (Some entries))
      as [_ Hread].
    { repeat split; try reflexivity. now left. }
    { reflexivity. }
    destruct (Hread entries eq_refl eq_refl) as [_ Hsome].
    destruct (Hsome _ Ha) as [Htty _].
    destruct (Htty eq_refl) as (l & _ & Hl & Hmain & _).
    exists l. split; [exact Hmain |]. split; now apply Hl.
  - destruct (main_on_directory (H := plain_host)
                (Main.mkInvocation ["docs"] false "" st) w "docs" (Some entries))
      as [_ Hread].
    { repeat split; try reflexivity. right. discriminate. }
    { reflexivity. }
    destruct (Hread entries eq_refl eq_refl) as [_ Hsome].
    destruct (Hsome _ Ha) as [_ Hpiped].
    apply Hpiped. reflexivity.
Defined.

Lemma main_on_file_witness :
  let st := fun p : string =>
    if String.eqb p "notes.txt" then Some Main.KNotDir else None in
  let w := Process.mkWorld {[ "notes.txt" := "text" ]} ∅ 0 ∅ in
  (∃ cfg, Main.main (H := plain_host)
            (Main.mkInvocation ["notes.txt"] true "" st) w
          = Main.Started cfg ∧
          Process.pending (Browser.machine cfg)
          = Some (Process.mkPending "/tmp/mdview-0.txt" false)) ∧
  ∃ text, Main.main (H := plain_host)
            (Main.mkInvocation ["gone.md"] true "" st) w
          = Main.Quit 1 [Main.Stderr text].
Proof.
  intros st w. split.
  - destruct (main_on_file (H := plain_host)
                (Main.mkInvocation ["notes.txt"] true "" st) w "notes.txt")
      as (_ & Hopen & _).
    { repeat split; try reflexivity. now left. }
    destruct (Hopen eq_refl "text" eq_refl ltac:(apply not_elem_of_empty))
      as (cfg & Hmain & _ & Hpend & _).
    exists cfg. split; [exact Hmain | exact Hpend].
  - destruct (main_on_file (H := plain_host)
                (Main.mkInvocation ["gone.md"] true "" st) w "gone.md")
      as (Hgone & _).
    { repeat split; try reflexivity. now left. }
    eexists. apply Hgone. reflexivity.
Defined.

(** ** A whole search, from [/] to Escape *)

Section SearchSession.
Import JsString Spec Notions Search Process Browser.
Context `{Host}.

Lemma typed_steps keys : ∀ i q rs tr fs st w pd,
  Forall typed_key keys →
  listening st = true → paused st = false →
  ∃ tr',
    steps (mkConfig (mkMachine (mkSelector fs i true q rs) st w pd tr) Running)
          (map Key keys)
    = mkConfig
        (mkMachine
           (mkSelector fs (if keys is [] then i else 0) true
              (q +:+ String.concat "" keys)
              (if keys is [] then rs
               else searchInFiles (fs_files w) fs (q +:+ String.concat "" keys)))
           st w pd tr')
        Running.
Proof.
  induction keys as [|key keys IH]; intros i q rs tr fs st w pd Hkeys Hl Hp.
  - exists tr. cbn [String.concat]. now rewrite str_app_nil_r.
  - apply Forall_cons in Hkeys as [Hkey Hkeys].
    cbn [map]. rewrite steps_cons, typed_step by assumption.
    destruct (IH 0 (q +:+ key) (searchInFiles (fs_files w) fs (q +:+ key))
                (tr ++ [ClearScreen] ++ [Repaint]) fs st w pd Hkeys Hl Hp)
      as [tr' ->].
    exists tr'. destruct keys as [|key' keys].
    + cbn [String.concat]. now rewrite str_app_nil_r.
    + assert (E : String.concat "" (key :: key' :: keys)
                  = key +:+ String.concat "" (key' :: keys)) by reflexivity.
      now rewrite E, <- str_app_assoc.
Qed.

(** X25: A whole search.  From normal mode, [/] followed by typed units leaves
    the selector in search mode with the typed text, in order, as the
    query, the results of a search for it (none when nothing was typed)
    and the cursor at 0.  Escape then discards the search: the selector
    is back in normal mode with no query and no results, and the cursor at
    0 rather than where it was before the search. *)
Theorem search_then_escape (m : Machine) (keys : list string) :
  Forall typed_key keys →
  listening (stdin m) = true → paused (stdin m) = false →
  searchMode (sel m) = false →
  let typed := String.concat "" keys in
  let searching := steps (mkConfig m Running) (Key "/" :: map Key keys) in
  let left := step searching (Key key_escape) in
  status searching = Running ∧
  sel (machine searching)
  = mkSelector (files (sel m)) 0 true typed
      (if keys is [] then []
       else searchInFiles (fs_files (world m)) (files (sel m)) typed) ∧
  status left = Running ∧
  sel (machine left) = restarted (sel m) ∧
  stdin (machine left) = stdin m ∧ world (machine left) = world m ∧
  pending (machine left) = pending m.
Proof.
  destruct m as [[fs i mode q rs] st w pd tr].
  cbn [stdin sel searchMode files world pending]. intros Hkeys Hl Hp ->.
  cbv zeta. rewrite steps_cons.
  assert (E : step
      (mkConfig (mkMachine (mkSelector fs i false q rs) st w pd tr) Running)
      (Key "/")
    = mkConfig (mkMachine (mkSelector fs 0 true "" []) st w pd
                          (tr ++ [ClearScreen] ++ [Repaint])) Running).
  { destruct st as [raw pz ls], w as [wf wl wc we]. cbn in Hl, Hp. subst.
    exec. now rewrite <- app_assoc. }
  rewrite E.
  destruct (typed_steps keys 0 "" [] (tr ++ [ClearScreen] ++ [Repaint])
              fs st w pd Hkeys Hl Hp) as [tr' ->].
  cbn [status machine sel]. change ("" +:+ String.concat "" keys)
    with (String.concat "" keys).
  split; [reflexivity |]. split; [now destruct keys |].
  destruct st as [raw pz ls], w as [wf wl wc we]. cbn in Hl, Hp. subst.
  unfold restarted. exec. repeat split.
Qed.

End SearchSession.

Lemma search_then_escape_witness :
  let w := Process.mkWorld {[ "a.md" := "Alpha"; "b.md" := "Beta" ]} ∅ 0 ∅ in
  let m := Process.mkMachine (Process.mkSelector ["a.md"; "b.md"] 1 false "" [])
             (Process.mkStdin true false true) w None [] in
  let searching :=
    Browser.steps (H := plain_host) (Browser.mkConfig m Browser.Running)
      [Browser.Key "/"; Browser.Key "b"; Browser.Key "e"] in
  Process.searchQuery (Process.sel (Browser.machine searching)) = "be" ∧
  map Search.file (Process.searchResults (Process.sel (Browser.machine searching)))
  = ["b.md"] ∧
  Process.sel
    (Browser.machine
       (Browser.step (H := plain_host) searching (Browser.Key Browser.key_escape)))
  = Process.mkSelector ["a.md"; "b.md"] 0 false "" [].
Proof.
  intros w m searching.
  destruct (search_then_escape (H := plain_host) m ["b"; "e"]) as
    (_ & Hsel & _ & Hleft & _).
  { repeat constructor; discriminate. }
  { reflexivity. }
  { reflexivity. }
  { reflexivity. }
  subst searching. cbn [map] in Hsel, Hleft.
  split; [now rewrite Hsel |]. split; [now rewrite Hsel |]. exact Hleft.
Defined.
